(** * Request lifecycle of the real-estate marketplace

    A shallow embedding of the PL/pgSQL functions [create_request],
    [cancel_request] and [respond_to_request]
    (supabase/migrations/..._003_row_level_security.sql), of the tables,
    enum types and the partial unique index they rely on
    (supabase/migrations/..._004_add_expo_push_token.sql), of the row level
    security policies on [properties] and [requests], and of the client
    wrappers [createRequest] and [cancelRequest] (api/requests.ts).

    Modelling conventions.
    - A uuid is a natural number.  Arguments are never NULL, and every id
      passed as a buyer, seller or caller refers to an existing profile: the
      [profiles] table is written by none of the modelled statements, so the
      foreign keys into it are taken as satisfied.
    - A table with a primary key is a finite map from the key to the row;
      [property_history] is only ever appended to and is kept as a list, in
      insertion order.
    - Columns that no modelled statement reads or writes (titles, prices,
      timestamps, ...) are left out of the rows.
    - [gen_random_uuid()] is modelled as picking a key that is not in the
      table.
    - The triggers are left out: those on UPDATE only set [updated_at], and
      the AFTER INSERT trigger on [requests] (migration 005) only posts an
      HTTP call, traps its own errors and writes to none of the tables.
    - A PL/pgSQL function body is a computation in a state and error monad
      over the tables and the list of rows locked so far; a call of the
      function is one transaction: an exception that leaves the body undoes
      its writes. *)

From Stdlib Require Import String Ascii.
From stdpp Require Import gmap strings list fin_maps pretty.

Local Open Scope string_scope.
Local Open Scope list_scope.
Local Open Scope nat_scope.

Abbreviation uuid := nat (only parsing).

(** ** Enum types (migration 004, step 1) *)

Inductive property_status := available | requested | sold | withdrawn.
Inductive request_status := pending | accepted | declined | cancelled.

#[global] Instance property_status_eq_dec : EqDecision property_status.
Proof. solve_decision. Defined.
#[global] Instance request_status_eq_dec : EqDecision request_status.
Proof. solve_decision. Defined.

(** The text of an enum label, as [%] prints it in a RAISE message and as
    it appears in a jsonb value. *)
Definition property_status_text (s : property_status) : string :=
  match s with
  | available => "available"
  | requested => "requested"
  | sold => "sold"
  | withdrawn => "withdrawn"
  end.

Definition request_status_text (s : request_status) : string :=
  match s with
  | pending => "pending"
  | accepted => "accepted"
  | declined => "declined"
  | cancelled => "cancelled"
  end.

(** ** Tables (migration 004, step 2) *)

Module Property.
Record t := mk { seller_id : uuid; status : property_status }.
Definition set_status (s : property_status) (p : t) : t :=
  {| seller_id := seller_id p; status := s |}.
End Property.

Module Request.
Record t := mk {
  buyer_id : uuid;
  property_id : uuid;
  seller_id : uuid;
  message : option string;
  status : request_status
}.
Definition set_status (s : request_status) (r : t) : t :=
  {| buyer_id := buyer_id r; property_id := property_id r;
     seller_id := seller_id r; message := message r; status := s |}.
End Request.

(** jsonb objects built by [jsonb_build_object]: keys in the order given. *)
Inductive json := JText (s : string) | JUuid (u : uuid).
Abbreviation jsonb := (list (string * json)) (only parsing).

Module History.
Record t := mk {
  property_id : uuid;
  user_id : uuid;
  action : string;
  old_values : jsonb;
  new_values : jsonb
}.
End History.

Record store := mkStore {
  properties : gmap nat Property.t;
  requests : gmap nat Request.t;
  property_history : list History.t
}.

Definition empty_store : store := mkStore ∅ ∅ [].

(** ** Transactions *)

Record pg_error := mkError { errcode : string; errmsg : string }.

Inductive rowref := PropertyRow (id : uuid) | RequestRow (id : uuid).

Record txstate := mkTx { db : store; locked : list rowref }.

Definition tx (A : Type) : Type := txstate → (pg_error + A) * txstate.

Definition tx_ret {A} (a : A) : tx A := λ s, (inr a, s).

Definition tx_bind {A B} (m : tx A) (k : A → tx B) : tx B :=
  λ s, match m s with
       | (inl e, s') => (inl e, s')
       | (inr a, s') => k a s'
       end.

(** [RAISE EXCEPTION msg USING ERRCODE = code] *)
Definition raise_exception {A} (msg code : string) : tx A :=
  λ s, (inl (mkError code msg), s).

#[global] Instance tx_mret : MRet tx := @tx_ret.
#[global] Instance tx_mbind : MBind tx := λ A B k m, tx_bind m k.

(** [BEGIN body EXCEPTION WHEN cond THEN handler END]: when [body] raises an
    error that the handler catches, the block's writes are undone and the
    handler runs from the state at the start of the block. *)
Definition block_exception {A} (body : tx A) (handler : pg_error → option (tx A))
  : tx A :=
  λ s, match body s with
       | (inl e, s') =>
           match handler e with
           | Some h => h s
           | None => (inl e, s')
           end
       | ok => ok
       end.

(** One call of a function by a client: the body runs in a transaction of
    its own; on an exception nothing is committed. *)
Definition rpc {A} (body : tx A) (st : store) : (pg_error + A) * store :=
  match body (mkTx st []) with
  | (inl e, _) => (inl e, st)
  | (inr a, s') => (inr a, db s')
  end.

(** *** Condition names *)
Definition unique_violation : string := "23505".

(** ** Statements *)

(** [SELECT ... FROM properties WHERE id = p FOR UPDATE]; [None] is NOT FOUND.
    A row that is found is locked. *)
Definition select_property_for_update (p : uuid) : tx (option Property.t) :=
  λ s, match properties (db s) !! p with
       | Some row => (inr (Some row), mkTx (db s) (locked s ++ [PropertyRow p]))
       | None => (inr None, s)
       end.

(** [SELECT ... FROM requests WHERE id = r FOR UPDATE] *)
Definition select_request_for_update (r : uuid) : tx (option Request.t) :=
  λ s, match requests (db s) !! r with
       | Some row => (inr (Some row), mkTx (db s) (locked s ++ [RequestRow r]))
       | None => (inr None, s)
       end.

(** The predicate of [idx_requests_buyer_pending_unique]:
    [UNIQUE ON requests(buyer_id) WHERE status = 'pending']. *)
Definition pending_of (b : uuid) (r : Request.t) : Prop :=
  Request.buyer_id r = b ∧ Request.status r = pending.

#[global] Instance pending_of_dec b r : Decision (pending_of b r).
Proof. unfold pending_of. apply _. Defined.

(** Does the index hold an entry for buyer [b], other than that of row
    [self]? *)
Definition pending_conflict (rs : gmap nat Request.t) (b : uuid)
    (self : option uuid) : bool :=
  bool_decide (map_Exists (λ k r, Some k ≠ self ∧ pending_of b r) rs).

Definition has_pending (rs : gmap nat Request.t) (b : uuid) : bool :=
  pending_conflict rs b None.

Definition gen_random_uuid (rs : gmap nat Request.t) : uuid := fresh (dom rs).

Definition dquote : string := String "034"%char EmptyString.

Definition index_error : pg_error :=
  mkError unique_violation
    ("duplicate key value violates unique constraint "
       +:+ dquote +:+ "idx_requests_buyer_pending_unique" +:+ dquote).

(** [INSERT INTO requests (...) VALUES (...) RETURNING id] *)
Definition insert_request (row : Request.t) : tx uuid :=
  λ s,
    if bool_decide (Request.status row = pending)
       && pending_conflict (requests (db s)) (Request.buyer_id row) None
    then (inl index_error, s)
    else
      let id := gen_random_uuid (requests (db s)) in
      (inr id,
       mkTx (mkStore (properties (db s)) (<[id := row]> (requests (db s)))
                     (property_history (db s)))
            (locked s)).

(** [UPDATE properties SET status = v WHERE id = p] *)
Definition update_property_status (p : uuid) (v : property_status) : tx unit :=
  λ s,
    (inr tt,
     mkTx (mkStore (alter (Property.set_status v) p (properties (db s)))
                   (requests (db s)) (property_history (db s)))
          (locked s)).

(** [UPDATE requests SET status = v WHERE id = r] *)
Definition update_request_status (r : uuid) (v : request_status) : tx unit :=
  λ s,
    match requests (db s) !! r with
    | None => (inr tt, s)
    | Some row =>
        if bool_decide (v = pending)
           && pending_conflict (requests (db s)) (Request.buyer_id row) (Some r)
        then (inl index_error, s)
        else
          (inr tt,
           mkTx (mkStore (properties (db s))
                         (<[r := Request.set_status v row]> (requests (db s)))
                         (property_history (db s)))
                (locked s))
    end.

(** [INSERT INTO property_history (...) VALUES (...)] *)
Definition insert_property_history (h : History.t) : tx unit :=
  λ s,
    (inr tt,
     mkTx (mkStore (properties (db s)) (requests (db s))
                   (property_history (db s) ++ [h]))
          (locked s)).

(** ** The reservation functions (migration 003) *)

Definition create_request (p_buyer p_property : uuid) (p_message : option string)
  : tx uuid :=
  found ← select_property_for_update p_property ;
  match found with
  | None => raise_exception "Property not found" "P0002"
  | Some prop =>
      let v_property_status := Property.status prop in
      let v_seller_id := Property.seller_id prop in
      if bool_decide (v_property_status ≠ available) then
        raise_exception
          ("Property is not available (current status: "
             +:+ property_status_text v_property_status +:+ ")")
          "P0001"
      else if bool_decide (v_seller_id = p_buyer) then
        raise_exception "Sellers cannot request their own properties" "P0003"
      else
        v_request_id ←
          block_exception
            (insert_request
               (Request.mk p_buyer p_property v_seller_id p_message pending))
            (λ e, if bool_decide (errcode e = unique_violation)
                  then Some (raise_exception
                    "Buyer has an active pending request. Please wait for the current request to be processed."
                    "23505")
                  else None) ;
        update_property_status p_property requested ;;
        insert_property_history
          (History.mk p_property p_buyer "request_created"
             [("status", JText "available")]
             [("status", JText "requested"); ("request_id", JUuid v_request_id)]) ;;
        tx_ret v_request_id
  end.

Definition cancel_request (p_request_id p_user_id : uuid) : tx bool :=
  found ← select_request_for_update p_request_id ;
  match found with
  | None => raise_exception "Request not found" "P0002"
  | Some req =>
      let v_buyer_id := Request.buyer_id req in
      let v_property_id := Request.property_id req in
      let v_status := Request.status req in
      if bool_decide (v_buyer_id ≠ p_user_id) then
        raise_exception "Only the buyer can cancel their request" "P0004"
      else if bool_decide (v_status ≠ pending) then
        raise_exception
          ("Only pending requests can be cancelled (current status: "
             +:+ request_status_text v_status +:+ ")")
          "P0001"
      else
        update_request_status p_request_id cancelled ;;
        update_property_status v_property_id available ;;
        tx_ret true
  end.

Definition respond_to_request (p_request_id p_user_id : uuid)
    (p_response : request_status) : tx bool :=
  if bool_decide (p_response ≠ accepted ∧ p_response ≠ declined) then
    raise_exception "Invalid response. Must be accepted or declined" "P0005"
  else
    found ← select_request_for_update p_request_id ;
    match found with
    | None => raise_exception "Request not found" "P0002"
    | Some req =>
        let v_seller_id := Request.seller_id req in
        let v_property_id := Request.property_id req in
        let v_status := Request.status req in
        if bool_decide (v_seller_id ≠ p_user_id) then
          raise_exception "Only the seller can respond to this request" "P0004"
        else if bool_decide (v_status ≠ pending) then
          raise_exception
            ("Only pending requests can be responded to (current status: "
               +:+ request_status_text v_status +:+ ")")
            "P0001"
        else
          update_request_status p_request_id p_response ;;
          (if bool_decide (p_response = accepted) then
             update_property_status v_property_id sold
           else if bool_decide (p_response = declined) then
             update_property_status v_property_id available
           else tx_ret tt) ;;
          tx_ret true
    end.

(** ** Direct statements of an authenticated client

    Row level security is enabled on every table (migration 003); a
    statement sent by a client outside the three functions runs with the
    policies below, [uid] being [auth.uid()].  Permissive policies for the
    same command are combined with OR, separately for USING and for WITH
    CHECK.  A row that fails USING is skipped silently; a new row that fails
    WITH CHECK raises insufficient_privilege. *)

Module RLS.
(** "Authenticated users can create properties" *)
Definition properties_insert_check (uid : uuid) (new : Property.t) : bool :=
  bool_decide (uid = Property.seller_id new).

(** "Property owners can update own properties" *)
Definition properties_update_using (uid : uuid) (old : Property.t) : bool :=
  bool_decide (uid = Property.seller_id old).
Definition properties_update_check (uid : uuid) (new : Property.t) : bool :=
  bool_decide (uid = Property.seller_id new).

(** "Property owners can delete own properties" *)
Definition properties_delete_using (uid : uuid) (old : Property.t) : bool :=
  bool_decide (uid = Property.seller_id old).

(** "Buyers can update own pending requests" *)
Definition buyers_update_using (uid : uuid) (old : Request.t) : bool :=
  bool_decide (uid = Request.buyer_id old)
  && bool_decide (Request.status old = pending).
Definition buyers_update_check (uid : uuid) (new : Request.t) : bool :=
  bool_decide (uid = Request.buyer_id new)
  && bool_decide (Request.status new ∈ [pending; cancelled]).

(** "Sellers can respond to requests" *)
Definition sellers_update_using (uid : uuid) (old : Request.t) : bool :=
  bool_decide (uid = Request.seller_id old)
  && bool_decide (Request.status old = pending).
Definition sellers_update_check (uid : uuid) (new : Request.t) : bool :=
  bool_decide (uid = Request.seller_id new)
  && bool_decide (Request.status new ∈ [pending; accepted; declined]).

(** "Users can view relevant requests" *)
Definition requests_select_using (uid : uuid) (row : Request.t) : bool :=
  bool_decide (uid = Request.buyer_id row)
  || bool_decide (uid = Request.seller_id row).

(** An UPDATE whose WHERE clause reads the row also needs the SELECT policy,
    on the existing row and on the new one. *)
Definition requests_update_using (uid : uuid) (old : Request.t) : bool :=
  requests_select_using uid old
  && (buyers_update_using uid old || sellers_update_using uid old).
Definition requests_update_check (uid : uuid) (new : Request.t) : bool :=
  requests_select_using uid new
  && (buyers_update_check uid new || sellers_update_check uid new).

(** There is no INSERT and no DELETE policy on [requests]. *)
Definition requests_insert_check (uid : uuid) (new : Request.t) : bool := false.
Definition requests_delete_using (uid : uuid) (old : Request.t) : bool := false.

Definition violation (table : string) : pg_error :=
  mkError "42501"
    ("new row violates row-level security policy for table "
       +:+ dquote +:+ table +:+ dquote).
End RLS.

(** The columns a client may name in [.update(updates)] (hooks/useProperties). *)
Record property_updates := mkUpdates {
  upd_seller_id : option uuid;
  upd_status : option property_status
}.

Definition apply_updates (u : property_updates) (row : Property.t) : Property.t :=
  {| Property.seller_id := default (Property.seller_id row) (upd_seller_id u);
     Property.status := default (Property.status row) (upd_status u) |}.

(** [INSERT INTO properties ... RETURNING id] *)
Definition client_insert_property (uid : uuid) (row : Property.t) : tx uuid :=
  λ s,
    if negb (RLS.properties_insert_check uid row)
    then (inl (RLS.violation "properties"), s)
    else
      let id := fresh (dom (properties (db s))) in
      (inr id,
       mkTx (mkStore (<[id := row]> (properties (db s))) (requests (db s))
                     (property_history (db s)))
            (locked s)).

(** [UPDATE properties SET ... WHERE id = p RETURNING *] *)
Definition client_update_property (uid p : uuid) (u : property_updates)
  : tx (option Property.t) :=
  λ s,
    match properties (db s) !! p with
    | None => (inr None, s)
    | Some old =>
        if negb (RLS.properties_update_using uid old) then (inr None, s)
        else
          let new := apply_updates u old in
          if negb (RLS.properties_update_check uid new)
          then (inl (RLS.violation "properties"), s)
          else
            (inr (Some new),
             mkTx (mkStore (<[p := new]> (properties (db s))) (requests (db s))
                           (property_history (db s)))
                  (locked s))
    end.

(** [DELETE FROM properties WHERE id = p]; the foreign keys of [requests] and
    [property_history] are ON DELETE CASCADE.  Returns the number of rows
    deleted. *)
Definition client_delete_property (uid p : uuid) : tx nat :=
  λ s,
    match properties (db s) !! p with
    | None => (inr 0, s)
    | Some old =>
        if negb (RLS.properties_delete_using uid old) then (inr 0, s)
        else
          (inr 1,
           mkTx (mkStore
                   (delete p (properties (db s)))
                   (filter (λ kr, Request.property_id kr.2 ≠ p) (requests (db s)))
                   (filter (λ h, History.property_id h ≠ p)
                           (property_history (db s))))
                (locked s))
    end.

(** [UPDATE requests SET status = v WHERE id = r]; returns the number of
    rows updated. *)
Definition client_update_request_status (uid r : uuid) (v : request_status)
  : tx nat :=
  λ s,
    match requests (db s) !! r with
    | None => (inr 0, s)
    | Some old =>
        if negb (RLS.requests_update_using uid old) then (inr 0, s)
        else if negb (RLS.requests_update_check uid (Request.set_status v old))
        then (inl (RLS.violation "requests"), s)
        else (_ ← update_request_status r v ; mret 1) s
    end.

(** [INSERT INTO requests ...] sent directly *)
Definition client_insert_request (uid : uuid) (row : Request.t) : tx uuid :=
  λ s,
    if negb (RLS.requests_insert_check uid row)
    then (inl (RLS.violation "requests"), s)
    else insert_request row s.

(** [DELETE FROM requests WHERE id = r] sent directly *)
Definition client_delete_request (uid r : uuid) : tx nat :=
  λ s,
    match requests (db s) !! r with
    | None => (inr 0, s)
    | Some old =>
        if negb (RLS.requests_delete_using uid old) then (inr 0, s)
        else
          (inr 1,
           mkTx (mkStore (properties (db s)) (delete r (requests (db s)))
                         (property_history (db s)))
                (locked s))
    end.

(** ** Reachable stores *)

Inductive action :=
  | CreateRequest (p_buyer p_property : uuid) (p_message : option string)
  | CancelRequest (p_request_id p_user_id : uuid)
  | RespondToRequest (p_request_id p_user_id : uuid) (p_response : request_status)
  | InsertProperty (uid : uuid) (row : Property.t)
  | UpdateProperty (uid p : uuid) (u : property_updates)
  | DeleteProperty (uid p : uuid)
  | UpdateRequestStatus (uid r : uuid) (v : request_status)
  | InsertRequest (uid : uuid) (row : Request.t)
  | DeleteRequest (uid r : uuid).

(** The store after the action, committed or rolled back. *)
Definition exec (a : action) (st : store) : store :=
  match a with
  | CreateRequest b p m => (rpc (create_request b p m) st).2
  | CancelRequest r u => (rpc (cancel_request r u) st).2
  | RespondToRequest r u v => (rpc (respond_to_request r u v) st).2
  | InsertProperty uid row => (rpc (client_insert_property uid row) st).2
  | UpdateProperty uid p u => (rpc (client_update_property uid p u) st).2
  | DeleteProperty uid p => (rpc (client_delete_property uid p) st).2
  | UpdateRequestStatus uid r v => (rpc (client_update_request_status uid r v) st).2
  | InsertRequest uid row => (rpc (client_insert_request uid row) st).2
  | DeleteRequest uid r => (rpc (client_delete_request uid r) st).2
  end.

Definition is_engine (a : action) : bool :=
  match a with
  | CreateRequest _ _ _ | CancelRequest _ _ | RespondToRequest _ _ _ => true
  | _ => false
  end.

Inductive reachable : store → Prop :=
  | reachable_init : reachable empty_store
  | reachable_step st a : reachable st → reachable (exec a st).

Definition run (acts : list action) (st : store) : store :=
  foldl (λ s a, exec a s) st acts.


(** ** The client wrappers (api/requests.ts) *)

Module Client.
(** The error classes thrown by the wrappers; [Error] is the plain
    JavaScript class. *)
Inductive exn :=
  | PropertyNotAvailableError
  | ActivePendingRequestError (message : string)
  | NetworkError (message : string)
  | Error (message : string).

Definition exn_message (e : exn) : string :=
  match e with
  | PropertyNotAvailableError => "Property is no longer available"
  | ActivePendingRequestError m => m
  | NetworkError m => m
  | Error m => m
  end.

(** [hay.includes(needle)] *)
Fixpoint includes (needle hay : string) : bool :=
  String.prefix needle hay
  || match hay with
     | EmptyString => false
     | String _ rest => includes needle rest
     end.

(** [s || d] on strings: the empty string is falsy. *)
Definition or_default (s d : string) : string :=
  match s with EmptyString => d | _ => s end.

(** [message || null] *)
Definition or_null (message : option string) : option string :=
  match message with
  | Some EmptyString => None
  | m => m
  end.

(** The [try] block of [createRequest], given the [{ data, error }] that
    [supabase.rpc] resolved to. *)
Definition createRequest_try (resp : pg_error + uuid) : exn + uuid :=
  match resp with
  | inl error =>
      if String.eqb (errcode error) "P0001" then inl PropertyNotAvailableError
      else if String.eqb (errcode error) "23505" then
        inl (ActivePendingRequestError
               "You have an active pending request. Please wait for it to be processed.")
      else if includes "network" (errmsg error) || includes "fetch" (errmsg error)
      then inl (NetworkError (errmsg error))
      else inl (Error (or_default (errmsg error) "Failed to create request"))
  | inr data => inr data
  end.

(** The [catch] block of [createRequest]. *)
Definition createRequest_catch (error : exn) : exn :=
  match error with
  | PropertyNotAvailableError | ActivePendingRequestError _ | NetworkError _ =>
      error
  | Error m =>
      if includes "network" m || includes "fetch" m then NetworkError m
      else Error (or_default m "Failed to create request")
  end.

Definition createRequest (buyerId propertyId : uuid) (message : option string)
    (st : store) : (exn + uuid) * store :=
  let '(resp, st') := rpc (create_request buyerId propertyId (or_null message)) st in
  (match createRequest_try resp with
   | inl e => inl (createRequest_catch e)
   | inr data => inr data
   end, st').

Definition cancelRequest_try (resp : pg_error + bool) : exn + bool :=
  match resp with
  | inl error => inl (Error (or_default (errmsg error) "Failed to cancel request"))
  | inr data => inr data
  end.

Definition cancelRequest_catch (error : exn) : exn :=
  Error (or_default (exn_message error) "Failed to cancel request").

Definition cancelRequest (requestId userId : uuid) (st : store)
  : (exn + bool) * store :=
  let '(resp, st') := rpc (cancel_request requestId userId) st in
  (match cancelRequest_try resp with
   | inl e => inl (cancelRequest_catch e)
   | inr data => inr data
   end, st').

(** An error of one of the wrapper's own classes, as opposed to a plain
    [Error]. *)
Definition typed (e : exn) : bool :=
  match e with Error _ => false | _ => true end.
End Client.

(** ** Replaying the audit history

    The spec's notion of deriving a property's status from
    [property_history]: starting from the status the property had before
    the first record, each record for the property that carries a status in
    [new_values] overrides it. *)

Definition status_of_text (s : string) : option property_status :=
  if String.eqb s "available" then Some available
  else if String.eqb s "requested" then Some requested
  else if String.eqb s "sold" then Some sold
  else if String.eqb s "withdrawn" then Some withdrawn
  else None.

Fixpoint jsonb_get (key : string) (o : list (string * json)) : option json :=
  match o with
  | [] => None
  | (k, v) :: rest => if String.eqb k key then Some v else jsonb_get key rest
  end.

Definition recorded_status (o : list (string * json)) : option property_status :=
  match jsonb_get "status" o with
  | Some (JText s) => status_of_text s
  | _ => None
  end.

Definition spec_replay (p : uuid) (init : property_status) (hs : list History.t)
  : property_status :=
  foldl (λ acc h,
           if bool_decide (History.property_id h = p)
           then default acc (recorded_status (History.new_values h))
           else acc)
        init hs.

(** ** Error kinds

    The SQLSTATE each function raises for an error kind of the
    specification.  [P0001] is raised by [create_request] for a property
    that is not available and by the other two functions for a request that
    is not pending. *)
Module Kind.
Definition NotFound : string := "P0002".
Definition PropertyNotAvailable : string := "P0001".
Definition SelfRequestForbidden : string := "P0003".
Definition DuplicatePendingRequest : string := "23505".
End Kind.

Definition fails_with {A} (res : pg_error + A) (code : string) : Prop :=
  ∃ e, res = inl e ∧ errcode e = code.

(** A body makes no write before it raises. *)
Definition no_partial_write {A} (body : tx A) : Prop :=
  ∀ s e s', body s = (inl e, s') → db s' = db s.

(** Buyer [b] owns a pending request. *)
Definition holds_pending (st : store) (b : uuid) : Prop :=
  ∃ k req, requests st !! k = Some req
           ∧ Request.buyer_id req = b ∧ Request.status req = pending.

(** ** The invariant of the partial unique index *)

Definition pending_inj (rs : gmap nat Request.t) : Prop :=
  ∀ b k1 k2 r1 r2,
    rs !! k1 = Some r1 → rs !! k2 = Some r2 →
    pending_of b r1 → pending_of b r2 → k1 = k2.

(** ** Example stores *)

Definition long_message : string := string_of_list_ascii (repeat "a"%char 5000).

(** Two available properties of seller 1 and no request. *)
Definition example_store : store :=
  mkStore {[ 10 := Property.mk 1 available; 11 := Property.mk 1 available ]} ∅ [].

(** Buyer 2 holds a pending request for property 10. *)
Definition pending_store : store :=
  mkStore {[ 10 := Property.mk 1 requested; 11 := Property.mk 1 available ]}
          {[ 0 := Request.mk 2 10 1 None pending ]}
          [History.mk 10 2 "request_created"
             [("status", JText "available")]
             [("status", JText "requested"); ("request_id", JUuid 0)]].

(** A property marked sold by its owner while a request for it is pending. *)
Definition sold_store : store :=
  mkStore {[ 10 := Property.mk 1 sold ]}
          {[ 0 := Request.mk 2 10 1 None pending ]}
          [History.mk 10 2 "request_created"
             [("status", JText "available")]
             [("status", JText "requested"); ("request_id", JUuid 0)]].

(** The store after a seller lists a property and a buyer requests it. *)
Definition requested_store : store :=
  run [InsertProperty 1 (Property.mk 1 available); CreateRequest 2 0 None]
      empty_store.

(** ** Reservations

    A store is consistent when pending requests and requested properties
    correspond: a pending request points to a property that is requested, a
    property has at most one pending request, and a requested property has
    one. *)
Definition reservation_consistent (st : store) : Prop :=
  (∀ r req, requests st !! r = Some req → Request.status req = pending →
     ∃ prop, properties st !! Request.property_id req = Some prop
             ∧ Property.status prop = requested)
  ∧ (∀ r1 r2 req1 req2,
       requests st !! r1 = Some req1 → requests st !! r2 = Some req2 →
       Request.status req1 = pending → Request.status req2 = pending →
       Request.property_id req1 = Request.property_id req2 → r1 = r2)
  ∧ (∀ p prop, properties st !! p = Some prop → Property.status prop = requested →
       ∃ r req, requests st !! r = Some req
                ∧ Request.property_id req = p ∧ Request.status req = pending).

(** The actions that go through the three functions, list a property that
    is not already marked requested, or delete a property. *)
Definition keeps_reservations (a : action) : bool :=
  match a with
  | CreateRequest _ _ _ | CancelRequest _ _ | RespondToRequest _ _ _ => true
  | InsertProperty _ row => bool_decide (Property.status row ≠ requested)
  | DeleteProperty _ _ => true
  | InsertRequest _ _ | DeleteRequest _ _ => true
  | UpdateProperty _ _ _ | UpdateRequestStatus _ _ _ => false
  end.


(** The request of [pending_store] cancelled by its buyer. *)
Definition cancelled_store : store := exec (CancelRequest 0 2) pending_store.

(** ** The client queries (api/requests.ts)

    A [select] sent by a client returns the rows that pass the SELECT policy
    for [uid] and the [.eq] filters.  [.maybeSingle()] answers null for no
    row, the row for one, and the PostgREST error PGRST116 for more.  The
    embedded seller profile of [getActiveRequest] is left out, [profiles]
    not being modelled; the embedded property is the row its [property_id]
    points to. *)
Module Queries.
Definition multiple_rows : pg_error :=
  mkError "PGRST116" "JSON object requested, multiple (or no) rows returned".

Definition maybeSingle {A} (rows : list A) : pg_error + option A :=
  match rows with
  | [] => inr None
  | [row] => inr (Some row)
  | _ => inl multiple_rows
  end.

Definition getActiveRequest_rows (uid buyerId : uuid) (st : store)
  : list (nat * Request.t) :=
  map_to_list
    (filter (λ kr, RLS.requests_select_using uid kr.2 = true
                   ∧ Request.buyer_id kr.2 = buyerId
                   ∧ Request.status kr.2 = pending)
            (requests st)).

Definition getActiveRequest (uid buyerId : uuid) (st : store)
  : Client.exn + option (nat * Request.t * option Property.t) :=
  match maybeSingle (getActiveRequest_rows uid buyerId st) with
  | inl error =>
      inl (Client.Error
             (Client.or_default
                (Client.exn_message (Client.Error (errmsg error)))
                "Failed to fetch active request"))
  | inr data =>
      inr ((λ kr, (kr, properties st !! Request.property_id kr.2)) <$> data)
  end.

Definition getBuyerRequestForProperty_rows (uid buyerId propertyId : uuid)
    (st : store) : list (nat * Request.t) :=
  map_to_list
    (filter (λ kr, RLS.requests_select_using uid kr.2 = true
                   ∧ Request.buyer_id kr.2 = buyerId
                   ∧ Request.property_id kr.2 = propertyId
                   ∧ Request.status kr.2 = pending)
            (requests st)).

Definition getBuyerRequestForProperty (uid buyerId propertyId : uuid)
    (st : store) : Client.exn + option (nat * Request.t) :=
  match maybeSingle (getBuyerRequestForProperty_rows uid buyerId propertyId st) with
  | inl error =>
      inl (Client.Error
             (Client.or_default
                (Client.exn_message (Client.Error (errmsg error)))
                "Failed to fetch request"))
  | inr data => inr data
  end.
End Queries.

(** ** The push function (supabase/functions/send-request-push/index.ts)

    Strings whose characters the code matches or counts (the push token,
    the buyer's message) are lists of UTF-16 code units.  What the function
    gets from outside is a parameter: the outcome of each [fetch] to the
    Expo API, by attempt number, and the outcome of [fetchRequestDetails],
    which reads columns of [profiles] and [properties] that the store above
    leaves out. *)
Module Push.
Definition js (s : string) : list N := N_of_ascii <$> list_ascii_of_string s.

(** *** Regular expressions, as far as [isValidExpoPushToken] needs them *)

Inductive regex :=
  | Void
  | Eps
  | Chr (c : N)
  | AnyChar
  | Seq (r1 r2 : regex)
  | Alt (r1 r2 : regex)
  | Star (r : regex).

(** [.] matches any code unit but a line terminator. *)
Definition line_terminator (c : N) : bool :=
  bool_decide (c ∈ [10; 13; 8232; 8233]%N).

Fixpoint nullable (r : regex) : bool :=
  match r with
  | Void => false
  | Eps => true
  | Chr _ => false
  | AnyChar => false
  | Seq r1 r2 => nullable r1 && nullable r2
  | Alt r1 r2 => nullable r1 || nullable r2
  | Star _ => true
  end.

Fixpoint deriv (c : N) (r : regex) : regex :=
  match r with
  | Void => Void
  | Eps => Void
  | Chr c' => if bool_decide (c = c') then Eps else Void
  | AnyChar => if line_terminator c then Void else Eps
  | Seq r1 r2 =>
      if nullable r1 then Alt (Seq (deriv c r1) r2) (deriv c r2)
      else Seq (deriv c r1) r2
  | Alt r1 r2 => Alt (deriv c r1) (deriv c r2)
  | Star r1 => Seq (deriv c r1) (Star r1)
  end.

(** [/^r$/.test(s)] *)
Fixpoint regex_test (r : regex) (s : list N) : bool :=
  match s with
  | [] => nullable r
  | c :: s' => regex_test (deriv c r) s'
  end.

Definition lit_list (l : list N) : regex := foldr (λ c r, Seq (Chr c) r) Eps l.
Definition lit (s : string) : regex := lit_list (js s).
Definition optional (r : regex) : regex := Alt r Eps.
Definition plus (r : regex) : regex := Seq r (Star r).

(** [/^Expo(nent)?PushToken\[.+\]$/] *)
Definition expo_token_regex : regex :=
  Seq (lit "Expo")
    (Seq (optional (lit "nent"))
       (Seq (lit "PushToken[") (Seq (plus AnyChar) (lit "]")))).

Definition isValidExpoPushToken (token : list N) : bool :=
  regex_test expo_token_regex token.

(** The strings a regular expression denotes. *)
Inductive Matches : regex → list N → Prop :=
  | MEps : Matches Eps []
  | MChr c : Matches (Chr c) [c]
  | MAny c : line_terminator c = false → Matches AnyChar [c]
  | MSeq r1 r2 s1 s2 :
      Matches r1 s1 → Matches r2 s2 → Matches (Seq r1 r2) (s1 ++ s2)
  | MAltL r1 r2 s : Matches r1 s → Matches (Alt r1 r2) s
  | MAltR r1 r2 s : Matches r2 s → Matches (Alt r1 r2) s
  | MStarNil r : Matches (Star r) []
  | MStarApp r s1 s2 :
      Matches r s1 → Matches (Star r) s2 → Matches (Star r) (s1 ++ s2).

(** *** sendExpoPushNotification *)

Definition MAX_RETRIES : nat := 3.
Definition RETRY_DELAY_MS : nat := 1000.

Record ticket := mkTicket {
  ticket_status : string;
  ticket_message : option string
}.

(** What one [fetch] to the Expo API comes to: an exception somewhere in the
    [try] block ([fetch], [response.text()] or [response.json()]), or a
    response with its status, its text and the [data] array of its JSON. *)
Inductive fetch_outcome :=
  | Throws (message : string)
  | Responds (status : nat) (text : string) (data : option (list ticket)).

(** [response.ok] *)
Definition response_ok (status : nat) : bool :=
  bool_decide (200 ≤ status) && bool_decide (status ≤ 299).

Record send_result := mkResult { success : bool; error : option string }.

(** The result with the attempts made and the delays slept between them, in
    milliseconds. *)
Record send_trace := mkTrace {
  result : send_result;
  attempts : list nat;
  sleeps : list nat
}.

Definition stop (attempt : nat) (r : send_result) : option send_trace :=
  Some (mkTrace r [attempt] []).

Definition after_delay (attempt : nat) (rest : option send_trace)
  : option send_trace :=
  match rest with
  | Some t =>
      Some (mkTrace (result t) (attempt :: attempts t)
              (RETRY_DELAY_MS * attempt :: sleeps t))
  | None => None
  end.

(** The message of a ticket, or the default when it is missing or empty. *)
Definition ticket_error (t : ticket) : string :=
  match ticket_message t with
  | Some m => Client.or_default m "Unknown error"
  | None => "Unknown error"
  end.

Fixpoint sendExpoPushNotification_from (fuel : nat) (net : nat → fetch_outcome)
    (attempt : nat) : option send_trace :=
  match fuel with
  | 0 => None
  | S fuel' =>
      match net attempt with
      | Responds status text data =>
          if negb (response_ok status) then
            if (bool_decide (500 ≤ status) || bool_decide (status = 429))
               && bool_decide (attempt < MAX_RETRIES)
            then after_delay attempt
                   (sendExpoPushNotification_from fuel' net (attempt + 1))
            else stop attempt
                   (mkResult false
                      (Some ("Expo API error: " +:+ pretty status
                               +:+ " - " +:+ text)))
          else
            match data with
            | Some (t :: _) =>
                if String.eqb (ticket_status t) "error" then
                  stop attempt
                    (mkResult false
                       (Some ("Push ticket error: " +:+ ticket_error t)))
                else if String.eqb (ticket_status t) "ok" then
                  stop attempt (mkResult true None)
                else
                  stop attempt
                    (mkResult false (Some "Unexpected Expo API response format"))
            | _ =>
                stop attempt
                  (mkResult false (Some "Unexpected Expo API response format"))
            end
      | Throws message =>
          if bool_decide (attempt < MAX_RETRIES)
          then after_delay attempt
                 (sendExpoPushNotification_from fuel' net (attempt + 1))
          else stop attempt
                 (mkResult false
                    (Some ("Failed after " +:+ pretty MAX_RETRIES
                             +:+ " attempts: " +:+ message)))
      end
  end.

(** [sendExpoPushNotification(message)], with [attempt = 1]. *)
Definition sendExpoPushNotification (net : nat → fetch_outcome)
  : option send_trace :=
  sendExpoPushNotification_from MAX_RETRIES net 1.

(** An outcome after which the function tries again, if attempts are left. *)
Definition retryable (o : fetch_outcome) : bool :=
  match o with
  | Throws _ => true
  | Responds status _ _ =>
      negb (response_ok status)
      && (bool_decide (500 ≤ status) || bool_decide (status = 429))
  end.

(** An outcome that is a delivered push: an ok response whose first ticket
    has status ok. *)
Definition delivered (o : fetch_outcome) : bool :=
  match o with
  | Responds status _ (Some (t :: _)) =>
      response_ok status
      && negb (String.eqb (ticket_status t) "error")
      && String.eqb (ticket_status t) "ok"
  | _ => false
  end.

(** *** The handler *)

Record RequestDetails := mkDetails {
  id : list N;
  property_id : list N;
  seller_id : list N;
  message : option (list N);
  buyer_name : list N;
  property_title : list N;
  seller_expo_token : option (list N)
}.

Record ExpoPushMessage := mkMessage {
  to : list N;
  sound : list N;
  title : list N;
  body : list N;
  data_request_id : list N;
  data_property_id : list N;
  data_url : list N
}.

(** The request as the handler reads it: the method, and the parsed body
    ([None] when [req.json()] throws or the body is not an object, else the
    value of its [request_id], if any). *)
Record http_request := mkRequest {
  method : string;
  payload : option (option (list N))
}.

Record http_response := mkResponse {
  status : nat;
  response_success : option bool;
  response_error : option string;
  pushed : option ExpoPushMessage;
  push_attempts : list nat
}.

(** A string from the environment or a column that is set and not empty. *)
Definition truthy {A} (o : option (list A)) : option (list A) :=
  match o with
  | Some (c :: rest) => Some (c :: rest)
  | _ => None
  end.

Definition truthy_string (o : option string) : bool :=
  match o with
  | Some (String _ _) => true
  | _ => false
  end.

Definition pushMessage (request_id : list N) (d : RequestDetails)
    (token : list N) : ExpoPushMessage :=
  mkMessage token (js "default")
    (js "New request for " ++ property_title d)
    (buyer_name d ++ js " is interested in your property"
       ++ match truthy (message d) with
          | Some m => js ": " ++ [34%N] ++ take 100 m ++ [34%N]
          | None => []
          end)
    (id d) (property_id d)
    (js "myapp://seller/requests/" ++ request_id).

Definition reply (code : nat) (ok : bool) (err : option string) : http_response :=
  mkResponse code (Some ok) err None [].

Definition handler (req : http_request)
    (SUPABASE_URL SUPABASE_SERVICE_ROLE_KEY : option string)
    (fetchRequestDetails : list N → option RequestDetails)
    (net : nat → fetch_outcome) : http_response :=
  if String.eqb (method req) "OPTIONS" then mkResponse 200 None None None []
  else if negb (String.eqb (method req) "POST") then
    reply 405 false (Some "Method not allowed")
  else
    match payload req with
    | None => reply 500 false (Some "Internal server error")
    | Some rid =>
        match truthy rid with
        | None => reply 400 false (Some "request_id is required")
        | Some request_id =>
            if negb (truthy_string SUPABASE_URL)
               || negb (truthy_string SUPABASE_SERVICE_ROLE_KEY)
            then reply 500 false (Some "Server configuration error")
            else
              match fetchRequestDetails request_id with
              | None => reply 404 false (Some "Request not found or database error")
              | Some requestDetails =>
                  match truthy (seller_expo_token requestDetails) with
                  | None =>
                      reply 200 false (Some "Seller has no push token registered")
                  | Some token =>
                      if negb (isValidExpoPushToken token) then
                        reply 400 false (Some "Invalid Expo push token format")
                      else
                        let msg := pushMessage request_id requestDetails token in
                        match sendExpoPushNotification net with
                        | Some t =>
                            if success (result t) then
                              mkResponse 200 (Some true) None (Some msg) (attempts t)
                            else
                              mkResponse 500 (Some false) (error (result t))
                                (Some msg) (attempts t)
                        | None =>
                            mkResponse 500 (Some false)
                              (Some "Internal server error") (Some msg) []
                        end
                  end
              end
        end
    end.
End Push.

(** A request of Ann for the Villa; the Expo API fails twice, then delivers. *)
Definition example_details : Push.RequestDetails :=
  Push.mkDetails (Push.js "r1") (Push.js "p1") (Push.js "s1")
    (Some (Push.js "hello")) (Push.js "Ann") (Push.js "Villa")
    (Some (Push.js "ExpoPushToken[abc]")).

Definition example_net (k : nat) : Push.fetch_outcome :=
  match k with
  | 1 => Push.Throws "timeout"
  | 2 => Push.Responds 503 "busy" None
  | _ => Push.Responds 200 "" (Some [Push.mkTicket "ok" None])
  end.

Definition example_response : Push.http_response :=
  Push.handler (Push.mkRequest "POST" (Some (Some (Push.js "r1"))))
    (Some "https://x") (Some "key") (λ _, Some example_details) example_net.

(** ** The image list of the add-property screen (screens/SellerHomeScreen.tsx)

    The state [images] and its four handlers.  An element read past the end
    of a JavaScript array is [undefined], and spreading [undefined] into an
    object gives an object without [uri]: the [uri] of an item is therefore
    optional.  Indexes are natural numbers.  A handler reads two lists: the
    [images] of the render that created it, and the [prev] that React hands
    to the updater given to [setImages]; they are the same list unless
    another update came in between. *)
Module Images.
Record ImageItem := mkItem { uri : option string; order : nat }.

Inductive direction := up | down.

(** [updated.map((img, i) => ({ ...img, order: i }))], on an array whose
    elements may be [undefined]. *)
Definition renumber (updated : list (option ImageItem)) : list ImageItem :=
  imap (λ i img, mkItem (img ≫= uri) i) updated.

(** [arr[i] = v]: in place when [i] is an index of the array, at the end
    when [i] is its length (further out the array would get holes, which
    the handlers never do). *)
Definition array_set {A} (i : nat) (v : option A) (arr : list (option A))
  : list (option A) :=
  if bool_decide (i < length arr) then <[i := v]> arr
  else arr ++ replicate (i - length arr) None ++ [v].

(** [prev.filter((_, i) => keep(i))] *)
Definition filter_index {A} (keep : nat → bool) (prev : list A) : list A :=
  (λ ix, ix.2) <$> filter (λ ix, keep ix.1 = true) (imap (λ i x, (i, x)) prev).



Definition handleRemoveImage (index : nat) (prev : list ImageItem)
  : list ImageItem :=
  renumber (Some <$> filter_index (λ i, negb (bool_decide (i = index))) prev).

(** [toIndex < 0] is the case [None] of [toIndex]. *)
Definition handleReorderImage (fromIndex : nat) (d : direction)
    (images prev : list ImageItem) : list ImageItem :=
  let toIndex :=
    match d with
    | up => match fromIndex with 0 => None | S t => Some t end
    | down => Some (fromIndex + 1)
    end in
  match toIndex with
  | None => prev
  | Some toIndex =>
      if bool_decide (length images ≤ toIndex) then prev
      else
        let updated := Some <$> prev in
        let at_to := mjoin (updated !! toIndex) in
        let at_from := mjoin (updated !! fromIndex) in
        renumber (array_set toIndex at_from (array_set fromIndex at_to updated))
  end.

(** The [order] of every item is its position. *)
Definition sequential (images : list ImageItem) : Prop :=
  order <$> images = seq 0 (length images).

(** [toIndex] is the index next to [fromIndex] in direction [d]. *)
Definition neighbour (fromIndex : nat) (d : direction) (toIndex : nat) : Prop :=
  match d with
  | up => fromIndex = S toIndex
  | down => toIndex = S fromIndex
  end.

Definition opposite (d : direction) : direction :=
  match d with up => down | down => up end.
End Images.

Definition three_images : list Images.ImageItem :=
  [Images.mkItem (Some "a") 0; Images.mkItem (Some "b") 1; Images.mkItem (Some "c") 2].

(** * Properties *)

(** ** Helper lemmas on the statements *)

Section helpers.
Implicit Types (rs : gmap nat Request.t) (ps : gmap nat Property.t).
Implicit Types (b p r : nat) (s : txstate) (st : store).

Lemma pending_conflict_true rs b self :
  pending_conflict rs b self = true ↔
  ∃ k req, rs !! k = Some req ∧ Some k ≠ self ∧ pending_of b req.
Proof.
  unfold pending_conflict. rewrite bool_decide_eq_true, map_Exists_lookup.
  naive_solver.
Qed.

Lemma has_pending_true rs b :
  has_pending rs b = true ↔ ∃ k req, rs !! k = Some req ∧ pending_of b req.
Proof.
  unfold has_pending. rewrite pending_conflict_true. split.
  - intros (k & req & Hk & _ & Hp). eauto.
  - intros (k & req & Hk & Hp). exists k, req. split; [done|]. split; [done|done].
Qed.

Lemma has_pending_false rs b :
  has_pending rs b = false ↔
  ∀ k req, rs !! k = Some req → Request.buyer_id req = b →
           Request.status req ≠ pending.
Proof.
  rewrite <- not_true_iff_false, has_pending_true. unfold pending_of.
  split.
  - intros Hn k req Hk Hb Hs. apply Hn. eauto.
  - intros Hall (k & req & Hk & Hb & Hs). by eapply Hall.
Qed.

Lemma gen_random_uuid_fresh rs : rs !! gen_random_uuid rs = None.
Proof.
  unfold gen_random_uuid. apply not_elem_of_dom. apply is_fresh.
Qed.

Lemma alter_lookup_insert {V} (f : V → V) (m : gmap nat V) k v :
  m !! k = Some v → alter f k m = <[k := f v]> m.
Proof.
  intros Hk. apply map_eq. intros j.
  rewrite lookup_alter, lookup_insert. case_decide; subst; [by rewrite Hk | done].
Qed.

Lemma alter_lookup_None {V} (f : V → V) (m : gmap nat V) k :
  m !! k = None → alter f k m = m.
Proof.
  intros Hk. apply map_eq. intros j.
  rewrite lookup_alter. case_decide; subst; [by rewrite Hk | done].
Qed.
End helpers.

(** The outcome of the body of [create_request], case by case. *)
Lemma create_request_run b p m s :
  create_request b p m s =
  match properties (db s) !! p with
  | None => (inl (mkError "P0002" "Property not found"), s)
  | Some prop =>
      let s1 := mkTx (db s) (locked s ++ [PropertyRow p]) in
      if decide (Property.status prop = available) then
        if decide (Property.seller_id prop = b) then
          (inl (mkError "P0003" "Sellers cannot request their own properties"), s1)
        else if has_pending (requests (db s)) b then
          (inl (mkError "23505"
             "Buyer has an active pending request. Please wait for the current request to be processed."),
           s1)
        else
          let id := gen_random_uuid (requests (db s)) in
          (inr id,
           mkTx (mkStore
                   (alter (Property.set_status requested) p (properties (db s)))
                   (<[id := Request.mk b p (Property.seller_id prop) m pending]>
                      (requests (db s)))
                   (property_history (db s) ++
                      [History.mk p b "request_created"
                         [("status", JText "available")]
                         [("status", JText "requested"); ("request_id", JUuid id)]]))
                (locked s ++ [PropertyRow p]))
      else
        (inl (mkError "P0001"
                ("Property is not available (current status: "
                   +:+ property_status_text (Property.status prop) +:+ ")")), s1)
  end.
Proof.
  unfold create_request, mbind, tx_mbind, tx_bind, select_property_for_update.
  destruct (properties (db s) !! p) as [prop|]; [|done].
  destruct (decide (Property.status prop = available)) as [Hav|Hav].
  2: { by rewrite bool_decide_eq_true_2. }
  rewrite bool_decide_eq_false_2 by (intros ?; done).
  destruct (decide (Property.seller_id prop = b)) as [Hs|Hs].
  { by rewrite bool_decide_eq_true_2. }
  rewrite bool_decide_eq_false_2 by done.
  unfold block_exception, insert_request, has_pending. simpl.
  destruct (pending_conflict (requests (db s)) b None); simpl; done.
Qed.

(** The outcome of the body of [cancel_request], case by case. *)
Lemma cancel_request_run r u s :
  cancel_request r u s =
  match requests (db s) !! r with
  | None => (inl (mkError "P0002" "Request not found"), s)
  | Some req =>
      let s1 := mkTx (db s) (locked s ++ [RequestRow r]) in
      if decide (Request.buyer_id req = u) then
        if decide (Request.status req = pending) then
          (inr true,
           mkTx (mkStore
                   (alter (Property.set_status available) (Request.property_id req)
                      (properties (db s)))
                   (<[r := Request.set_status cancelled req]> (requests (db s)))
                   (property_history (db s)))
                (locked s ++ [RequestRow r]))
        else
          (inl (mkError "P0001"
                  ("Only pending requests can be cancelled (current status: "
                     +:+ request_status_text (Request.status req) +:+ ")")), s1)
      else
        (inl (mkError "P0004" "Only the buyer can cancel their request"), s1)
  end.
Proof.
  unfold cancel_request, mbind, tx_mbind, tx_bind, select_request_for_update.
  destruct (requests (db s) !! r) as [req|] eqn:Hr; [|done].
  destruct (decide (Request.buyer_id req = u)) as [Hb|Hb].
  2: { by rewrite bool_decide_eq_true_2. }
  rewrite bool_decide_eq_false_2 by (intros ?; done).
  destruct (decide (Request.status req = pending)) as [Hs|Hs].
  2: { by rewrite bool_decide_eq_true_2. }
  rewrite bool_decide_eq_false_2 by (intros ?; done).
  unfold update_request_status, update_property_status. simpl. rewrite Hr.
  simpl. done.
Qed.

(** The outcome of the body of [respond_to_request], case by case. *)
Lemma respond_to_request_run r u v s :
  respond_to_request r u v s =
  if decide (v = accepted ∨ v = declined) then
    match requests (db s) !! r with
    | None => (inl (mkError "P0002" "Request not found"), s)
    | Some req =>
        let s1 := mkTx (db s) (locked s ++ [RequestRow r]) in
        if decide (Request.seller_id req = u) then
          if decide (Request.status req = pending) then
            (inr true,
             mkTx (mkStore
                     (alter (Property.set_status
                               (if decide (v = accepted) then sold else available))
                        (Request.property_id req) (properties (db s)))
                     (<[r := Request.set_status v req]> (requests (db s)))
                     (property_history (db s)))
                  (locked s ++ [RequestRow r]))
          else
            (inl (mkError "P0001"
                    ("Only pending requests can be responded to (current status: "
                       +:+ request_status_text (Request.status req) +:+ ")")), s1)
        else
          (inl (mkError "P0004" "Only the seller can respond to this request"), s1)
    end
  else
    (inl (mkError "P0005" "Invalid response. Must be accepted or declined"), s).
Proof.
  unfold respond_to_request.
  destruct (decide (v = accepted ∨ v = declined)) as [Hv|Hv].
  2: { rewrite bool_decide_eq_true_2; [done|]. split; intros ->; apply Hv; auto. }
  rewrite bool_decide_eq_false_2 by (intros [? ?]; destruct Hv; done).
  unfold mbind, tx_mbind, tx_bind, select_request_for_update.
  destruct (requests (db s) !! r) as [req|] eqn:Hr; [|done].
  destruct (decide (Request.seller_id req = u)) as [Hb|Hb].
  2: { by rewrite bool_decide_eq_true_2. }
  rewrite bool_decide_eq_false_2 by (intros ?; done).
  destruct (decide (Request.status req = pending)) as [Hs|Hs].
  2: { by rewrite bool_decide_eq_true_2. }
  rewrite bool_decide_eq_false_2 by (intros ?; done).
  unfold update_request_status, update_property_status. simpl. rewrite Hr.
  destruct Hv as [-> | ->]; simpl; done.
Qed.

Lemma holds_pending_has_pending st b :
  holds_pending st b ↔ has_pending (requests st) b = true.
Proof. by rewrite has_pending_true. Qed.

Lemma not_holds_pending st b :
  ¬ holds_pending st b ↔ has_pending (requests st) b = false.
Proof. rewrite holds_pending_has_pending. by destruct (has_pending _ _). Qed.

(** ** create_request *)

(** C1. For a property [P] that exists, is available and belongs to seller
    [S], and a buyer [A] other than [S] who owns no pending request,
    [create_request(A, P, message)] succeeds: it returns the id [R] of a row
    that was not in [requests] before and now holds buyer [A], property [P],
    seller [S] (read from the property), the message given and status
    pending; the status of [P] becomes requested (its seller is unchanged)
    and one history record is appended. *)
Theorem create_request_succeeds (st : store) (A P S : nat)
    (message : option string) (prop : Property.t) :
  properties st !! P = Some prop →
  Property.status prop = available →
  Property.seller_id prop = S →
  A ≠ S →
  (∀ k req, requests st !! k = Some req → Request.buyer_id req = A →
            Request.status req ≠ pending) →
  ∃ R st',
    rpc (create_request A P message) st = (inr R, st')
    ∧ requests st !! R = None
    ∧ requests st' = <[R := Request.mk A P S message pending]> (requests st)
    ∧ requests st' !! R = Some (Request.mk A P S message pending)
    ∧ properties st' = <[P := Property.mk S requested]> (properties st)
    ∧ properties st' !! P = Some (Property.mk S requested)
    ∧ property_history st' =
        (property_history st ++
          [History.mk P A "request_created"
             [("status", JText "available")]
             [("status", JText "requested"); ("request_id", JUuid R)]])%list.
Proof.
  intros HP Hav HS Hne Hnone.
  apply has_pending_false in Hnone.
  unfold rpc. rewrite create_request_run. simpl. rewrite HP.
  rewrite decide_True by done.
  rewrite decide_False by congruence.
  rewrite Hnone. simpl.
  eexists _, _. split; [reflexivity|]. simpl.
  split; [apply gen_random_uuid_fresh|].
  split; [by rewrite HS|].
  split; [by rewrite lookup_insert_eq, HS|].
  rewrite (alter_lookup_insert _ _ _ _ HP). unfold Property.set_status. rewrite HS.
  split; [done|]. split; [by rewrite lookup_insert_eq|done].
Qed.

Lemma create_request_succeeds_witness :
  ∃ R st',
    rpc (create_request 2 10 (Some "hello")) example_store = (inr R, st')
    ∧ requests example_store !! R = None
    ∧ requests st' = <[R := Request.mk 2 10 1 (Some "hello") pending]> (requests example_store)
    ∧ requests st' !! R = Some (Request.mk 2 10 1 (Some "hello") pending)
    ∧ properties st' = <[10 := Property.mk 1 requested]> (properties example_store)
    ∧ properties st' !! 10 = Some (Property.mk 1 requested)
    ∧ property_history st' =
        (property_history example_store ++
          [History.mk 10 2 "request_created"
             [("status", JText "available")]
             [("status", JText "requested"); ("request_id", JUuid R)]])%list.
Proof.
  apply (create_request_succeeds example_store 2 10 1 (Some "hello")
           (Property.mk 1 available)).
  - reflexivity.
  - reflexivity.
  - reflexivity.
  - lia.
  - intros k req Hk. vm_compute in Hk. discriminate.
Defined.

(** C3. [create_request] checks, in this order: the property exists
    (NotFound), it is available (PropertyNotAvailable), its seller is not
    the buyer (SelfRequestForbidden), the buyer owns no pending request
    (DuplicatePendingRequest).  Each error is raised exactly when its check
    fails and the earlier ones pass; when all pass the call returns an id.
    In particular a self-request on a property that is not available
    reports PropertyNotAvailable. *)
Theorem create_request_check_order (st : store) (b p : nat) (m : option string) :
  let res := (rpc (create_request b p m) st).1 in
  (fails_with res Kind.NotFound ↔ properties st !! p = None)
  ∧ (∀ prop, properties st !! p = Some prop →
       (fails_with res Kind.PropertyNotAvailable ↔ Property.status prop ≠ available)
       ∧ (Property.status prop ≠ available → Property.seller_id prop = b →
            fails_with res Kind.PropertyNotAvailable
            ∧ ¬ fails_with res Kind.SelfRequestForbidden)
       ∧ (Property.status prop = available →
            (fails_with res Kind.SelfRequestForbidden ↔ Property.seller_id prop = b)
            ∧ (Property.seller_id prop ≠ b →
                 (fails_with res Kind.DuplicatePendingRequest ↔ holds_pending st b)
                 ∧ (¬ holds_pending st b → ∃ id, res = inr id)))).
Proof.
  unfold fails_with, rpc. rewrite create_request_run. simpl.
  destruct (properties st !! p) as [prop|] eqn:HP; simpl.
  2: { split; [|intros ? [=]]. split; [done|]. intros _. eexists. by split. }
  split.
  { split; [|done]. intros (e & He & Hc). exfalso. revert He Hc.
    repeat (case_decide || destruct (has_pending _ _)); simpl;
      intros [= <-]; simpl; unfold Kind.NotFound; discriminate. }
  intros prop' [= <-].
  destruct (decide (Property.status prop = available)) as [Hav|Hav].
  - split.
    { split; [|done]. intros (e & He & Hc). exfalso. revert He Hc.
      repeat (case_decide || destruct (has_pending _ _)); simpl;
        intros [= <-]; simpl; unfold Kind.PropertyNotAvailable; discriminate. }
    split; [done|]. intros _.
    destruct (decide (Property.seller_id prop = b)) as [Hs|Hs].
    + split; [|done]. split; [done|]. intros _. eexists. by split.
    + split.
      { split; [|done]. intros (e & He & Hc). exfalso. revert He Hc.
        destruct (has_pending _ _); simpl;
          intros [= <-]; simpl; unfold Kind.SelfRequestForbidden; discriminate. }
      intros _. rewrite not_holds_pending, holds_pending_has_pending.
      destruct (has_pending (requests st) b); simpl.
      * split; [|done]. split; [done|]. intros _. eexists. by split.
      * split; [|intros _; by eexists].
        split; [|done]. intros (e & [=] & _).
  - split.
    { split; [done|]. intros _. eexists. by split. }
    split; [|done]. intros _ Hs. split.
    + eexists. by split.
    + intros (e & [= <-] & Hc). simpl in Hc. discriminate.
Qed.

Lemma create_request_check_order_witness :
  fails_with (rpc (create_request 1 10 None)
                (mkStore {[ 10 := Property.mk 1 sold ]} ∅ [])).1
    Kind.PropertyNotAvailable
  ∧ ¬ fails_with (rpc (create_request 1 10 None)
                    (mkStore {[ 10 := Property.mk 1 sold ]} ∅ [])).1
        Kind.SelfRequestForbidden.
Proof.
  refine (proj1 (proj2 (proj2
    (create_request_check_order (mkStore {[ 10 := Property.mk 1 sold ]} ∅ [])
       1 10 None) (Property.mk 1 sold) _)) _ _).
  - reflexivity.
  - simpl. discriminate.
  - reflexivity.
Defined.

(** ** Failures write nothing *)

Lemma create_request_no_partial_write b p m : no_partial_write (create_request b p m).
Proof.
  intros s e s'. rewrite create_request_run.
  destruct (properties (db s) !! p) as [prop|]; simpl.
  - repeat (case_decide || destruct (has_pending _ _)); intros [= <- <-]; done.
  - by intros [= <- <-].
Qed.

Lemma cancel_request_no_partial_write r u : no_partial_write (cancel_request r u).
Proof.
  intros s e s'. rewrite cancel_request_run.
  destruct (requests (db s) !! r) as [req|]; simpl.
  - repeat case_decide; intros [= <- <-]; done.
  - by intros [= <- <-].
Qed.

Lemma respond_to_request_no_partial_write r u v :
  no_partial_write (respond_to_request r u v).
Proof.
  intros s e s'. rewrite respond_to_request_run.
  case_decide; [|by intros [= <- <-]].
  destruct (requests (db s) !! r) as [req|]; simpl.
  - repeat case_decide; intros [= <- <-]; done.
  - by intros [= <- <-].
Qed.

Lemma rpc_failure_unchanged {A} (body : tx A) st e :
  (rpc body st).1 = inl e → (rpc body st).2 = st.
Proof.
  unfold rpc. destruct (body _) as [[e'|a] s']; simpl; [done|discriminate].
Qed.

(** C4. A call of [create_request], [cancel_request] or
    [respond_to_request] that fails leaves the store as it was: requests,
    properties and history.  This holds of the committed result of the call
    and already of the function bodies, none of which writes before it
    raises.  In particular, when the buyer owns a pending request and the
    property was found available (and is not the buyer's own),
    [create_request] fails with DuplicatePendingRequest, the status update
    is not applied and the property is still available. *)
Theorem failure_leaves_store_unchanged (st : store) :
  (∀ b p m e, (rpc (create_request b p m) st).1 = inl e →
              (rpc (create_request b p m) st).2 = st)
  ∧ (∀ r u e, (rpc (cancel_request r u) st).1 = inl e →
              (rpc (cancel_request r u) st).2 = st)
  ∧ (∀ r u v e, (rpc (respond_to_request r u v) st).1 = inl e →
                (rpc (respond_to_request r u v) st).2 = st)
  ∧ (∀ b p m, no_partial_write (create_request b p m))
  ∧ (∀ r u, no_partial_write (cancel_request r u))
  ∧ (∀ r u v, no_partial_write (respond_to_request r u v))
  ∧ (∀ b p m prop,
       properties st !! p = Some prop →
       Property.status prop = available →
       Property.seller_id prop ≠ b →
       holds_pending st b →
       fails_with (rpc (create_request b p m) st).1 Kind.DuplicatePendingRequest
       ∧ (rpc (create_request b p m) st).2 = st
       ∧ ∃ prop', properties (rpc (create_request b p m) st).2 !! p = Some prop'
                  ∧ Property.status prop' = available).
Proof.
  split; [intros; by eapply rpc_failure_unchanged|].
  split; [intros; by eapply rpc_failure_unchanged|].
  split; [intros; by eapply rpc_failure_unchanged|].
  split; [apply create_request_no_partial_write|].
  split; [apply cancel_request_no_partial_write|].
  split; [apply respond_to_request_no_partial_write|].
  intros b p m prop HP Hav Hs Hpend.
  apply holds_pending_has_pending in Hpend.
  unfold fails_with, rpc. rewrite create_request_run. simpl. rewrite HP.
  rewrite decide_True by done. rewrite decide_False by done.
  rewrite Hpend. simpl.
  split; [eexists; by split|]. split; [done|]. eauto.
Qed.

Lemma failure_leaves_store_unchanged_witness :
  fails_with (rpc (create_request 2 11 None) pending_store).1
    Kind.DuplicatePendingRequest
  ∧ (rpc (create_request 2 11 None) pending_store).2 = pending_store
  ∧ ∃ prop', properties (rpc (create_request 2 11 None) pending_store).2 !! 11
             = Some prop' ∧ Property.status prop' = available.
Proof.
  refine (proj2 (proj2 (proj2 (proj2 (proj2 (proj2
    (failure_leaves_store_unchanged pending_store))))))
    2 11 None (Property.mk 1 available) _ _ _ _).
  - reflexivity.
  - reflexivity.
  - simpl. lia.
  - exists 0, (Request.mk 2 10 1 None pending). split; [reflexivity|]. by split.
Defined.

(** ** cancel_request *)



(** ** respond_to_request *)



(** C10. [cancel_request], and [respond_to_request] with decision declined,
    write available into the property the request refers to without
    locking, reading or checking that property: whatever the property's
    status is (sold and withdrawn included), once the request passes the
    pending and authorization checks the call returns true and the property
    ends available; the only row the body locks or reads is the request. *)
Theorem revert_to_available_unchecked (st : store) (r u : nat)
    (req : Request.t) (prop : Property.t) :
  requests st !! r = Some req →
  Request.status req = pending →
  properties st !! Request.property_id req = Some prop →
  (Request.buyer_id req = u →
     (rpc (cancel_request r u) st).1 = inr true
     ∧ properties (rpc (cancel_request r u) st).2 !! Request.property_id req
       = Some (Property.mk (Property.seller_id prop) available)
     ∧ ∀ l, locked (cancel_request r u (mkTx st l)).2 = (l ++ [RequestRow r])%list)
  ∧ (Request.seller_id req = u →
     (rpc (respond_to_request r u declined) st).1 = inr true
     ∧ properties (rpc (respond_to_request r u declined) st).2
         !! Request.property_id req
       = Some (Property.mk (Property.seller_id prop) available)
     ∧ ∀ l, locked (respond_to_request r u declined (mkTx st l)).2
            = (l ++ [RequestRow r])%list).
Proof.
  intros Hr Hs Hp. split; intros Hu.
  - unfold rpc. rewrite cancel_request_run. simpl. rewrite Hr.
    rewrite !decide_True by done. simpl.
    split; [done|]. split.
    + rewrite lookup_alter, decide_True, Hp by done. done.
    + intros l. rewrite cancel_request_run. simpl. rewrite Hr.
      rewrite !decide_True by done. done.
  - unfold rpc. rewrite respond_to_request_run.
    rewrite (decide_True (P := declined = accepted ∨ declined = declined)) by auto.
    simpl. rewrite Hr.
    rewrite !decide_True by done. simpl.
    split; [done|]. split.
    + rewrite lookup_alter, decide_True, Hp by done. done.
    + intros l. rewrite respond_to_request_run.
      rewrite (decide_True (P := declined = accepted ∨ declined = declined)) by auto.
      simpl. rewrite Hr.
      rewrite !decide_True by done. done.
Qed.

Lemma revert_to_available_unchecked_witness :
  (rpc (cancel_request 0 2) sold_store).1 = inr true
  ∧ properties (rpc (cancel_request 0 2) sold_store).2 !! 10
    = Some (Property.mk 1 available)
  ∧ ∀ l, locked (cancel_request 0 2 (mkTx sold_store l)).2
         = (l ++ [RequestRow 0])%list.
Proof.
  refine (proj1 (revert_to_available_unchecked sold_store 0 2
                   (Request.mk 2 10 1 None pending) (Property.mk 1 sold) _ _ _) _).
  - reflexivity.
  - reflexivity.
  - reflexivity.
  - reflexivity.
Defined.

(** ** One pending request per buyer *)

Section size_le_1.
Context {V : Type}.
Implicit Types m : gmap nat V.

End size_le_1.


Lemma pending_inj_insert_fresh rs i row :
  pending_inj rs → rs !! i = None →
  (Request.status row = pending → has_pending rs (Request.buyer_id row) = false) →
  pending_inj (<[i := row]> rs).
Proof.
  intros Hinj Hid Hnew b k1 k2 r1 r2 H1 H2 P1 P2.
  rewrite lookup_insert in H1, H2.
  destruct (decide (i = k1)) as [E1|N1], (decide (i = k2)) as [E2|N2];
    simplify_eq; try done.
  - exfalso. destruct P1 as [Hb Hs]. specialize (Hnew Hs).
    rewrite has_pending_false in Hnew. destruct P2 as [Hb2 Hs2].
    eapply Hnew; [exact H2| congruence | done].
  - exfalso. destruct P2 as [Hb Hs]. specialize (Hnew Hs).
    rewrite has_pending_false in Hnew. destruct P1 as [Hb1 Hs1].
    eapply Hnew; [exact H1| congruence | done].
  - by eapply Hinj.
Qed.

Lemma pending_inj_update rs r req v :
  pending_inj rs → rs !! r = Some req →
  (v = pending → pending_conflict rs (Request.buyer_id req) (Some r) = false) →
  pending_inj (<[r := Request.set_status v req]> rs).
Proof.
  intros Hinj Hr Hv b k1 k2 r1 r2 H1 H2 P1 P2.
  assert (∀ k row, rs !! k = Some row → k ≠ r →
            pending_of b row → pending_of b (Request.set_status v req) → False)
    as Hconf.
  { intros k row Hk Hne Pk [Hb Hs]. simpl in Hb, Hs. specialize (Hv Hs).
    apply not_true_iff_false in Hv. apply Hv. apply pending_conflict_true.
    exists k, row. split; [done|]. split; [congruence|].
    destruct Pk as [Hb' Hs']. split; [congruence|done]. }
  rewrite lookup_insert in H1, H2.
  destruct (decide (r = k1)) as [E1|N1], (decide (r = k2)) as [E2|N2];
    simplify_eq; try done.
  - exfalso. eapply (Hconf k2 r2); eauto.
  - exfalso. eapply (Hconf k1 r1); eauto.
  - by eapply Hinj.
Qed.

Lemma pending_inj_subseteq rs rs' :
  rs' ⊆ rs → pending_inj rs → pending_inj rs'.
Proof.
  intros Hsub Hinj b k1 k2 r1 r2 H1 H2.
  eapply Hinj; eapply lookup_weaken; eauto.
Qed.

Lemma rpc_preserves {A} (body : tx A) (I : store → Prop) st :
  I st →
  (∀ s a s', body s = (inr a, s') → I (db s) → I (db s')) →
  I (rpc body st).2.
Proof.
  intros HI Hbody. unfold rpc.
  destruct (body (mkTx st [])) as [[e|a] s'] eqn:Hrun; simpl; [done|].
  by apply (Hbody _ _ _ Hrun).
Qed.

Lemma update_request_status_pending_inj r v s a s' :
  update_request_status r v s = (inr a, s') →
  pending_inj (requests (db s)) → pending_inj (requests (db s')).
Proof.
  unfold update_request_status.
  destruct (requests (db s) !! r) as [row|] eqn:Hr; [|by intros [= _ <-]].
  destruct (bool_decide (v = pending)) eqn:Hv; simpl.
  - destruct (pending_conflict _ _ _) eqn:Hc; [discriminate|].
    intros [= _ <-] Hinj. simpl. by apply pending_inj_update.
  - intros [= _ <-] Hinj. simpl. apply pending_inj_update; [done..|].
    intros ->. by rewrite bool_decide_eq_true_2 in Hv.
Qed.

Lemma exec_pending_inj a st :
  pending_inj (requests st) → pending_inj (requests (exec a st)).
Proof.
  intros Hinj.
  destruct a as [b p m|r u|r u v|uid row|uid p u|uid p|uid r v|uid row|uid r];
    cbv beta iota delta [exec];
    apply (rpc_preserves _ (λ st, pending_inj (requests st))); try done;
    intros s a s'.
  - rewrite create_request_run.
    destruct (properties (db s) !! p) as [prop|]; [|discriminate]. simpl.
    repeat case_decide; try discriminate.
    destruct (has_pending (requests (db s)) b) eqn:Hp; [discriminate|].
    intros [= _ <-] Hi. simpl.
    apply pending_inj_insert_fresh; [done|apply gen_random_uuid_fresh|done].
  - rewrite cancel_request_run.
    destruct (requests (db s) !! r) as [req|] eqn:Hr; [|discriminate]. simpl.
    repeat case_decide; try discriminate.
    intros [= _ <-] Hi. simpl. by apply pending_inj_update.
  - rewrite respond_to_request_run.
    case_decide as Hv; [|discriminate].
    destruct (requests (db s) !! r) as [req|] eqn:Hr; [|discriminate]. simpl.
    repeat case_decide; try discriminate;
      (intros [= _ <-] Hi; simpl; apply pending_inj_update; [done..|];
       intros ->; destruct Hv; discriminate).
  - unfold client_insert_property.
    destruct (negb _); [discriminate|]. by intros [= _ <-].
  - unfold client_update_property.
    destruct (properties (db s) !! p) as [old|]; [|by intros [= _ <-]].
    destruct (negb _); [by intros [= _ <-]|].
    destruct (negb _); [discriminate|]. by intros [= _ <-].
  - unfold client_delete_property.
    destruct (properties (db s) !! p) as [old|]; [|by intros [= _ <-]].
    destruct (negb _); [by intros [= _ <-]|].
    intros [= _ <-] Hi. simpl.
    eapply pending_inj_subseteq; [apply map_filter_subseteq|done].
  - unfold client_update_request_status.
    destruct (requests (db s) !! r) as [old|]; [|by intros [= _ <-]].
    destruct (negb _); [by intros [= _ <-]|].
    destruct (negb _); [discriminate|].
    unfold mbind, tx_mbind, tx_bind.
    destruct (update_request_status r v s) as [[e|x] s1] eqn:Hu; [discriminate|].
    intros [= _ <-]. by eapply update_request_status_pending_inj.
  - unfold client_delete_request, RLS.requests_delete_using. simpl.
    destruct (requests (db s) !! r) as [old|]; by intros [= _ <-].
Qed.

Lemma reachable_pending_inj st : reachable st → pending_inj (requests st).
Proof.
  induction 1 as [|st a _ IH].
  - intros b k1 k2 r1 r2 H1. simpl in H1. by rewrite lookup_empty in H1.
  - by apply exec_pending_inj.
Qed.

Lemma reachable_run acts st : reachable st → reachable (run acts st).
Proof.
  revert st. induction acts as [|a acts IH]; intros st Hst; [done|].
  simpl. apply IH. by constructor.
Qed.




(** ** Audit history *)

Lemma cancel_request_history st r u :
  property_history (rpc (cancel_request r u) st).2 = property_history st.
Proof.
  unfold rpc. rewrite cancel_request_run. simpl.
  destruct (requests st !! r) as [req|]; [|done].
  repeat case_decide; done.
Qed.

Lemma respond_to_request_history st r u v :
  property_history (rpc (respond_to_request r u v) st).2 = property_history st.
Proof.
  unfold rpc. rewrite respond_to_request_run. simpl.
  case_decide; [|done].
  destruct (requests st !! r) as [req|]; [|done].
  repeat case_decide; done.
Qed.

(** C7 (the code departs from it). [create_request] appends a history
    record for the transition it makes, but [cancel_request] and
    [respond_to_request] never append one.  After a seller lists property 0,
    buyer 2 requests it and then cancels, the property is available while
    the history, unchanged by the cancellation, replays to requested; had
    the seller accepted instead, the property would be sold and the replay
    still requested. *)
Theorem history_misses_cancel_and_respond :
  (∀ st r u,
     property_history (rpc (cancel_request r u) st).2 = property_history st)
  ∧ (∀ st r u v,
     property_history (rpc (respond_to_request r u v) st).2 = property_history st)
  ∧ reachable requested_store
  ∧ Property.status <$> properties requested_store !! 0 = Some requested
  ∧ spec_replay 0 available (property_history requested_store) = requested
  ∧ (let st' := (rpc (cancel_request 0 2) requested_store).2 in
     (rpc (cancel_request 0 2) requested_store).1 = inr true
     ∧ Property.status <$> properties st' !! 0 = Some available
     ∧ property_history st' = property_history requested_store
     ∧ spec_replay 0 available (property_history st') = requested)
  ∧ (let st' := (rpc (respond_to_request 0 1 accepted) requested_store).2 in
     (rpc (respond_to_request 0 1 accepted) requested_store).1 = inr true
     ∧ Property.status <$> properties st' !! 0 = Some sold
     ∧ property_history st' = property_history requested_store
     ∧ spec_replay 0 available (property_history st') = requested).
Proof.
  split; [apply cancel_request_history|].
  split; [apply respond_to_request_history|].
  split; [apply reachable_run, reachable_init|].
  repeat split; by vm_compute.
Qed.

(** ** Who can write a status *)

Lemma client_update_request_status_run uid r v st :
  rpc (client_update_request_status uid r v) st =
  match requests st !! r with
  | None => (inr 0, st)
  | Some old =>
      if RLS.requests_update_using uid old then
        if RLS.requests_update_check uid (Request.set_status v old) then
          if bool_decide (v = pending)
             && pending_conflict (requests st) (Request.buyer_id old) (Some r)
          then (inl index_error, st)
          else (inr 1, mkStore (properties st)
                         (<[r := Request.set_status v old]> (requests st))
                         (property_history st))
        else (inl (RLS.violation "requests"), st)
      else (inr 0, st)
  end.
Proof.
  unfold rpc, client_update_request_status. simpl.
  destruct (requests st !! r) as [old|] eqn:Hr; [|done].
  destruct (RLS.requests_update_using uid old); simpl; [|done].
  destruct (RLS.requests_update_check uid _); simpl; [|done].
  unfold mbind, tx_mbind, tx_bind, update_request_status. simpl. rewrite Hr.
  destruct (bool_decide (v = pending) && _); done.
Qed.






(** ** The client wrappers *)

(** C9 (amended). [createRequest] turns PropertyNotAvailable into
    [PropertyNotAvailableError] and DuplicatePendingRequest into
    [ActivePendingRequestError]; NotFound and SelfRequestForbidden reach the
    caller as a plain [Error] carrying the function's message.
    [cancelRequest] turns every failure (NotFound, Forbidden,
    InvalidStateTransition) into a plain [Error] carrying the function's
    message.  Neither wrapper checks its parameters: the function is always
    called, with the ids as given and the message as given, whatever its
    length (an empty message is sent as null), and on success the stored
    request carries that message. *)
Theorem client_error_mapping (st : store) :
  (∀ b p m,
     match properties st !! p with
     | None =>
         Client.createRequest b p m st = (inl (Client.Error "Property not found"), st)
     | Some prop =>
         if decide (Property.status prop = available) then
           if decide (Property.seller_id prop = b) then
             Client.createRequest b p m st
             = (inl (Client.Error "Sellers cannot request their own properties"), st)
           else if has_pending (requests st) b then
             Client.createRequest b p m st
             = (inl (Client.ActivePendingRequestError
                       "You have an active pending request. Please wait for it to be processed."),
                st)
           else
             ∃ R st', Client.createRequest b p m st = (inr R, st')
                      ∧ requests st' !! R
                        = Some (Request.mk b p (Property.seller_id prop)
                                  (Client.or_null m) pending)
         else
           Client.createRequest b p m st = (inl Client.PropertyNotAvailableError, st)
     end)
  ∧ (∀ r u,
     match requests st !! r with
     | None =>
         Client.cancelRequest r u st = (inl (Client.Error "Request not found"), st)
     | Some req =>
         if decide (Request.buyer_id req = u) then
           if decide (Request.status req = pending) then
             (Client.cancelRequest r u st).1 = inr true
           else
             Client.cancelRequest r u st
             = (inl (Client.Error
                       ("Only pending requests can be cancelled (current status: "
                          +:+ request_status_text (Request.status req) +:+ ")")), st)
         else
           Client.cancelRequest r u st
           = (inl (Client.Error "Only the buyer can cancel their request"), st)
     end)
  ∧ (∀ b p m e, (Client.createRequest b p m st).1 = inl e →
       Client.typed e = false ↔
       properties st !! p = None
       ∨ ∃ prop, properties st !! p = Some prop
                 ∧ Property.status prop = available ∧ Property.seller_id prop = b)
  ∧ (∀ r u e, (Client.cancelRequest r u st).1 = inl e → Client.typed e = false).
Proof.
  assert (∀ b p m,
     match properties st !! p with
     | None =>
         Client.createRequest b p m st = (inl (Client.Error "Property not found"), st)
     | Some prop =>
         if decide (Property.status prop = available) then
           if decide (Property.seller_id prop = b) then
             Client.createRequest b p m st
             = (inl (Client.Error "Sellers cannot request their own properties"), st)
           else if has_pending (requests st) b then
             Client.createRequest b p m st
             = (inl (Client.ActivePendingRequestError
                       "You have an active pending request. Please wait for it to be processed."),
                st)
           else
             ∃ R st', Client.createRequest b p m st = (inr R, st')
                      ∧ requests st' !! R
                        = Some (Request.mk b p (Property.seller_id prop)
                                  (Client.or_null m) pending)
         else
           Client.createRequest b p m st = (inl Client.PropertyNotAvailableError, st)
     end) as Hcreate.
  { intros b p m. unfold Client.createRequest, rpc. rewrite create_request_run. simpl.
    destruct (properties st !! p) as [prop|]; [|done].
    repeat case_decide; try done.
    destruct (has_pending (requests st) b); [done|]. simpl.
    eexists _, _. split; [done|]. simpl. by rewrite lookup_insert_eq. }
  assert (∀ r u,
     match requests st !! r with
     | None =>
         Client.cancelRequest r u st = (inl (Client.Error "Request not found"), st)
     | Some req =>
         if decide (Request.buyer_id req = u) then
           if decide (Request.status req = pending) then
             (Client.cancelRequest r u st).1 = inr true
           else
             Client.cancelRequest r u st
             = (inl (Client.Error
                       ("Only pending requests can be cancelled (current status: "
                          +:+ request_status_text (Request.status req) +:+ ")")), st)
         else
           Client.cancelRequest r u st
           = (inl (Client.Error "Only the buyer can cancel their request"), st)
     end) as Hcancel.
  { intros r u. unfold Client.cancelRequest, rpc. rewrite cancel_request_run. simpl.
    destruct (requests st !! r) as [req|]; [|done].
    repeat case_decide; done. }
  split; [exact Hcreate|]. split; [exact Hcancel|]. split.
  - intros b p m e He. specialize (Hcreate b p m).
    destruct (properties st !! p) as [prop|].
    2: { rewrite Hcreate in He. injection He as <-. split; [by left|done]. }
    destruct (decide (Property.status prop = available)) as [Hav|Hav].
    2: { rewrite Hcreate in He. injection He as <-. simpl. split; [done|].
         intros [[=]|(? & [= <-] & ? & _)]. done. }
    destruct (decide (Property.seller_id prop = b)) as [Hs|Hs].
    { rewrite Hcreate in He. injection He as <-. simpl. split; [|done].
      intros _. right. eauto. }
    destruct (has_pending (requests st) b).
    + rewrite Hcreate in He. injection He as <-. simpl. split; [done|].
      intros [[=]|(? & [= <-] & _ & ?)]. done.
    + destruct Hcreate as (R & st' & Hc & _). rewrite Hc in He. discriminate.
  - intros r u e He. specialize (Hcancel r u).
    destruct (requests st !! r) as [req|].
    2: { rewrite Hcancel in He. by injection He as <-. }
    repeat case_decide.
    + rewrite Hcancel in He. discriminate.
    + rewrite Hcancel in He. by injection He as <-.
    + rewrite Hcancel in He. by injection He as <-.
Qed.

Lemma client_error_mapping_witness :
  Client.typed (Client.Error "Request not found") = false.
Proof.
  refine (proj2 (proj2 (proj2 (client_error_mapping example_store)))
            0 2 (Client.Error "Request not found") _).
  reflexivity.
Defined.

(** C9 as stated fails: a missing property and a self-request surface from
    [createRequest], and a missing request and a foreign caller from
    [cancelRequest], as a plain [Error]; only the text tells them apart.  A
    message of 5000 characters is passed on and stored as it is. *)
Lemma client_errors_untyped :
  (Client.createRequest 2 12 None example_store).1
  = inl (Client.Error "Property not found")
  ∧ (Client.createRequest 1 10 None example_store).1
    = inl (Client.Error "Sellers cannot request their own properties")
  ∧ (Client.cancelRequest 7 2 pending_store).1
    = inl (Client.Error "Request not found")
  ∧ (Client.cancelRequest 0 3 pending_store).1
    = inl (Client.Error "Only the buyer can cancel their request")
  ∧ Client.typed (Client.Error "Property not found") = false
  ∧ (Client.createRequest 2 10 (Some long_message) example_store).1 = inr 0
  ∧ String.length <$>
      (requests (Client.createRequest 2 10 (Some long_message) example_store).2
         !! 0 ≫= Request.message) = Some 5000.
Proof. repeat split; by vm_compute. Qed.

(** ** The shape of one step *)

Lemma exec_shape st a :
  exec a st = st
  ∨ (∃ b p m prop,
       a = CreateRequest b p m
       ∧ properties st !! p = Some prop
       ∧ Property.status prop = available
       ∧ Property.seller_id prop ≠ b
       ∧ has_pending (requests st) b = false
       ∧ exec a st =
         mkStore (<[p := Property.mk (Property.seller_id prop) requested]>
                    (properties st))
                 (<[gen_random_uuid (requests st) :=
                      Request.mk b p (Property.seller_id prop) m pending]>
                    (requests st))
                 (property_history st ++
                    [History.mk p b "request_created"
                       [("status", JText "available")]
                       [("status", JText "requested");
                        ("request_id", JUuid (gen_random_uuid (requests st)))]]))
  ∨ (∃ r req v ps,
       ((a = CancelRequest r (Request.buyer_id req) ∧ v = cancelled ∧ ps = available)
        ∨ (a = RespondToRequest r (Request.seller_id req) v
           ∧ ((v = accepted ∧ ps = sold) ∨ (v = declined ∧ ps = available))))
       ∧ requests st !! r = Some req
       ∧ Request.status req = pending
       ∧ exec a st =
         mkStore (alter (Property.set_status ps) (Request.property_id req)
                    (properties st))
                 (<[r := Request.set_status v req]> (requests st))
                 (property_history st))
  ∨ (∃ row,
       a = InsertProperty (Property.seller_id row) row
       ∧ exec a st =
         mkStore (<[fresh (dom (properties st)) := row]> (properties st))
                 (requests st) (property_history st))
  ∨ (∃ p old u,
       a = UpdateProperty (Property.seller_id old) p u
       ∧ properties st !! p = Some old
       ∧ exec a st =
         mkStore (<[p := Property.mk (Property.seller_id old)
                           (default (Property.status old) (upd_status u))]>
                    (properties st))
                 (requests st) (property_history st))
  ∨ (∃ p old,
       a = DeleteProperty (Property.seller_id old) p
       ∧ properties st !! p = Some old
       ∧ exec a st =
         mkStore (delete p (properties st))
                 (filter (λ kr, Request.property_id kr.2 ≠ p) (requests st))
                 (filter (λ h, History.property_id h ≠ p) (property_history st)))
  ∨ (∃ uid r old v,
       a = UpdateRequestStatus uid r v
       ∧ requests st !! r = Some old
       ∧ Request.status old = pending
       ∧ exec a st =
         mkStore (properties st) (<[r := Request.set_status v old]> (requests st))
                 (property_history st)).
Proof.
  destruct a as [b p m|r u|r u v|uid row|uid p u|uid p|uid r v|uid row|uid r];
    cbv beta iota delta [exec].
  - unfold rpc. rewrite create_request_run. simpl.
    destruct (properties st !! p) as [prop|] eqn:HP; [|by left]. simpl.
    destruct (decide (Property.status prop = available)) as [Hav|]; [|by left].
    destruct (decide (Property.seller_id prop = b)) as [|Hs]; [by left|].
    destruct (has_pending (requests st) b) eqn:Hp; [by left|].
    right; left. exists b, p, m, prop. repeat (split; [done|]). simpl.
    by rewrite (alter_lookup_insert _ _ _ _ HP).
  - unfold rpc. rewrite cancel_request_run. simpl.
    destruct (requests st !! r) as [req|] eqn:Hr; [|by left]. simpl.
    destruct (decide (Request.buyer_id req = u)) as [<-|]; [|by left].
    destruct (decide (Request.status req = pending)) as [Hs|]; [|by left].
    right; right; left. exists r, req, cancelled, available.
    split; [by left|]. done.
  - unfold rpc. rewrite respond_to_request_run. simpl.
    destruct (decide (v = accepted ∨ v = declined)) as [Hv|]; [|by left].
    destruct (requests st !! r) as [req|] eqn:Hr; [|by left]. simpl.
    destruct (decide (Request.seller_id req = u)) as [<-|]; [|by left].
    destruct (decide (Request.status req = pending)) as [Hs|]; [|by left].
    right; right; left.
    exists r, req, v, (if decide (v = accepted) then sold else available).
    split; [|done]. right. split; [done|].
    destruct Hv as [-> | ->]; [by left|by right].
  - unfold rpc, client_insert_property, RLS.properties_insert_check. simpl.
    case_bool_decide as Hu; simpl; [|by left]. subst uid.
    right; right; right; left. by exists row.
  - unfold rpc, client_update_property. simpl.
    destruct (properties st !! p) as [old|] eqn:HP; simpl; [|by left].
    unfold RLS.properties_update_using, RLS.properties_update_check.
    case_bool_decide as Hu; simpl; [|by left]. subst uid.
    case_bool_decide as Hc; simpl; [|by left].
    right; right; right; right; left. exists p, old, u.
    split; [done|]. split; [done|]. simpl.
    unfold apply_updates in *. simpl in Hc. by rewrite <- Hc.
  - unfold rpc, client_delete_property, RLS.properties_delete_using. simpl.
    destruct (properties st !! p) as [old|] eqn:HP; simpl; [|by left].
    case_bool_decide as Hu; simpl; [|by left]. subst uid.
    right; right; right; right; right; left. by exists p, old.
  - rewrite client_update_request_status_run.
    destruct (requests st !! r) as [old|] eqn:Hr; [|by left].
    destruct (RLS.requests_update_using uid old) eqn:Hu; [|by left].
    destruct (RLS.requests_update_check uid _); [|by left].
    destruct (bool_decide (v = pending) && _); [by left|].
    right; right; right; right; right; right. exists uid, r, old, v.
    split; [done|]. split; [done|]. split; [|done].
    unfold RLS.requests_update_using, RLS.buyers_update_using,
      RLS.sellers_update_using in Hu.
    apply andb_true_iff in Hu as [_ Hu].
    apply orb_true_iff in Hu as [Hu|Hu];
      apply andb_true_iff in Hu as [_ Hu]; by apply bool_decide_eq_true in Hu.
  - left. done.
  - left. unfold rpc, client_delete_request, RLS.requests_delete_using. simpl.
    by destruct (requests st !! r).
Qed.

(** ** Request rows over one step *)

Lemma exec_request_lookup st a r old new :
  requests st !! r = Some old →
  requests (exec a st) !! r = Some new →
  new = old
  ∨ (Request.status old = pending ∧ ∃ v, new = Request.set_status v old).
Proof.
  intros Ho Hn.
  destruct (exec_shape st a) as
    [E|[(b & p & m & prop & _ & _ & _ & _ & _ & E)
       |[(r0 & req & v & ps & _ & Hr0 & Hs & E)
        |[(row & _ & E)
         |[(p & o & u & _ & _ & E)
          |[(p & o & _ & _ & E)
           |(uid & r0 & o & v & _ & Hr0 & Hs & E)]]]]]];
    rewrite E in Hn; simpl in Hn.
  - left. congruence.
  - left. rewrite lookup_insert_ne in Hn; [congruence|].
    intros Heq. rewrite <- Heq, gen_random_uuid_fresh in Ho. discriminate.
  - destruct (decide (r0 = r)) as [->|Hne].
    + rewrite lookup_insert_eq in Hn. right. simplify_eq. eauto.
    + rewrite lookup_insert_ne in Hn by done. left. congruence.
  - left. congruence.
  - left. congruence.
  - apply map_lookup_filter_Some in Hn as [Hn _]. left. congruence.
  - destruct (decide (r0 = r)) as [->|Hne].
    + rewrite lookup_insert_eq in Hn. right. simplify_eq. eauto.
    + rewrite lookup_insert_ne in Hn by done. left. congruence.
Qed.



(** X2. A request that is accepted, declined or cancelled keeps that status
    under every action: no function and no direct statement permitted by
    the policies moves a request out of a status other than pending, and in
    particular no request ever returns to pending. *)
Theorem request_status_terminal (st : store) (a : action) (r : nat)
    (old new : Request.t) :
  requests st !! r = Some old →
  requests (exec a st) !! r = Some new →
  Request.status old ≠ pending →
  new = old.
Proof.
  intros Ho Hn Hs.
  destruct (exec_request_lookup st a r old new Ho Hn) as [->|(Hp & _)]; done.
Qed.

Lemma request_status_terminal_witness :
  Request.mk 2 10 1 None cancelled = Request.mk 2 10 1 None cancelled.
Proof.
  refine (request_status_terminal cancelled_store (RespondToRequest 0 1 accepted) 0
            (Request.mk 2 10 1 None cancelled) (Request.mk 2 10 1 None cancelled)
            _ _ _).
  - reflexivity.
  - reflexivity.
  - discriminate.
Defined.



(** ** Property rows over one step *)

Lemma exec_property_seller st a p old new :
  properties st !! p = Some old →
  properties (exec a st) !! p = Some new →
  Property.seller_id new = Property.seller_id old.
Proof.
  intros Ho Hn.
  destruct (exec_shape st a) as
    [E|[(b & p0 & m & prop & _ & HP & _ & _ & _ & E)
       |[(r0 & req & v & ps & _ & Hr0 & Hs & E)
        |[(row & _ & E)
         |[(p0 & o & u & _ & HP & E)
          |[(p0 & o & _ & HP & E)
           |(uid & r0 & o & v & _ & Hr0 & Hs & E)]]]]]];
    rewrite E in Hn; simpl in Hn; try congruence.
  - destruct (decide (p0 = p)) as [->|Hne].
    + rewrite lookup_insert_eq in Hn. by simplify_eq.
    + rewrite lookup_insert_ne in Hn by done. congruence.
  - rewrite lookup_alter in Hn. case_decide; [|congruence].
    subst. rewrite Ho in Hn. simpl in Hn. by simplify_eq.
  - rewrite lookup_insert_ne in Hn; [congruence|].
    intros Heq. pose proof (is_fresh (dom (properties st))) as Hf.
    rewrite Heq in Hf. apply Hf, elem_of_dom. eauto.
  - destruct (decide (p0 = p)) as [->|Hne].
    + rewrite lookup_insert_eq in Hn. by simplify_eq.
    + rewrite lookup_insert_ne in Hn by done. congruence.
  - destruct (decide (p0 = p)) as [->|Hne].
    + by rewrite lookup_delete_eq in Hn.
    + rewrite lookup_delete_ne in Hn by done. congruence.
Qed.

(** X4. The seller of a property never changes.  Under every action a
    property that survives keeps its [seller_id]; an owner who tries to hand
    the property to somebody else with an UPDATE is refused with
    insufficient_privilege (42501) and nothing is written, and an UPDATE by
    anybody but the owner touches no row. *)
Theorem property_seller_immutable (st : store) (p : nat) (old : Property.t) :
  properties st !! p = Some old →
  (∀ a new, properties (exec a st) !! p = Some new →
            Property.seller_id new = Property.seller_id old)
  ∧ (∀ s' v, s' ≠ Property.seller_id old →
       rpc (client_update_property (Property.seller_id old) p
              (mkUpdates (Some s') v)) st
       = (inl (RLS.violation "properties"), st))
  ∧ (∀ uid u, uid ≠ Property.seller_id old →
       rpc (client_update_property uid p u) st = (inr None, st)).
Proof.
  intros Ho. split; [|split].
  - intros a new Hn. by eapply exec_property_seller.
  - intros s' v Hne. unfold rpc, client_update_property. simpl. rewrite Ho.
    unfold RLS.properties_update_using, RLS.properties_update_check. simpl.
    rewrite bool_decide_eq_true_2 by done. simpl.
    rewrite bool_decide_eq_false_2 by done. done.
  - intros uid u Hne. unfold rpc, client_update_property. simpl. rewrite Ho.
    unfold RLS.properties_update_using.
    rewrite bool_decide_eq_false_2 by done. done.
Qed.

Lemma property_seller_immutable_witness :
  rpc (client_update_property 1 10 (mkUpdates (Some 3) None)) example_store
  = (inl (RLS.violation "properties"), example_store).
Proof.
  refine (proj1 (proj2 (property_seller_immutable example_store 10
                          (Property.mk 1 available) _)) 3 None _).
  - reflexivity.
  - simpl. lia.
Defined.

(** ** Referential integrity *)




(** ** Reservations stay consistent *)

Lemma fresh_property_lookup (ps : gmap nat Property.t) p prop :
  ps !! p = Some prop → fresh (dom ps) ≠ p.
Proof.
  intros HP Heq. pose proof (is_fresh (dom ps)) as Hf.
  rewrite Heq in Hf. apply Hf, elem_of_dom. eauto.
Qed.

Lemma exec_reservation_consistent a st :
  reservation_consistent st → keeps_reservations a = true →
  reservation_consistent (exec a st).
Proof.
  intros (HA & HB & HC) Hk.
  destruct (exec_shape st a) as
    [E|[(b & p0 & m & pr & _ & HP0 & Hav & _ & _ & E)
       |[(r0 & rq0 & v & ps & Hvs & Hr0 & Hs0 & E)
        |[(row & Ha & E)
         |[(p0 & o & u & Ha & _ & _)
          |[(p0 & o & _ & HP0 & E)
           |(uid & r0 & o & v & Ha & _ & _ & _)]]]]]].
  - by rewrite E.
  - (* create_request *)
    rewrite E. clear E. set (R := gen_random_uuid (requests st)).
    assert (∀ r rq, requests st !! r = Some rq → Request.status rq = pending →
              Request.property_id rq ≠ p0) as Hfree.
    { intros r rq Hr Hs Heq. destruct (HA r rq Hr Hs) as (prop & HP & Hreq).
      rewrite Heq, HP0 in HP. injection HP as <-. congruence. }
    assert (∀ r rq, requests st !! r = Some rq → r ≠ R) as HR.
    { intros r rq Hr ->. unfold R in Hr. by rewrite gen_random_uuid_fresh in Hr. }
    split; [|split]; simpl.
    + intros r rq Hr Hs. rewrite lookup_insert in Hr. case_decide.
      * injection Hr as <-. simpl. rewrite lookup_insert_eq. eauto.
      * rewrite lookup_insert_ne by (by eapply not_eq_sym, Hfree).
        by eapply HA.
    + intros r1 r2 q1 q2 H1 H2 S1 S2 Hp.
      rewrite lookup_insert in H1, H2.
      destruct (decide (R = r1)) as [<-|], (decide (R = r2)) as [<-|];
        simplify_eq; simpl in *; try done.
      * exfalso. by eapply Hfree.
      * exfalso. by eapply Hfree.
      * by eapply HB.
    + intros p prop HP Hreq. rewrite lookup_insert in HP. case_decide.
      * subst. exists R. eexists. rewrite lookup_insert_eq. by split.
      * destruct (HC p prop HP Hreq) as (r & rq & Hr & Hp & Hs).
        exists r, rq. rewrite lookup_insert_ne by (by eapply not_eq_sym, HR). done.
  - (* cancel_request, respond_to_request *)
    rewrite E. clear E.
    assert (v ≠ pending ∧ ps ≠ requested) as [Hv Hps].
    { destruct Hvs as [(_ & -> & ->)|(_ & [[-> ->]|[-> ->]])]; done. }
    split; [|split]; simpl.
    + intros r rq Hr Hs. rewrite lookup_insert in Hr. case_decide.
      { injection Hr as <-. done. }
      destruct (HA r rq Hr Hs) as (prop & HP & Hreq).
      rewrite lookup_alter_ne; [eauto|].
      intros Heq. assert (r0 = r) by (by eapply HB). done.
    + intros r1 r2 q1 q2 H1 H2 S1 S2 Hp.
      rewrite lookup_insert in H1, H2.
      destruct (decide (r0 = r1)) as [<-|], (decide (r0 = r2)) as [<-|];
        simplify_eq; simpl in *; try done.
      by eapply HB.
    + intros p prop HP Hreq. rewrite lookup_alter in HP. case_decide as Hd.
      { destruct (properties st !! Request.property_id rq0) as [o|];
          simpl in HP; [|discriminate].
        injection HP as <-. simpl in Hreq. done. }
      destruct (HC p prop HP Hreq) as (r & rq & Hr & Hp & Hs).
      exists r, rq. rewrite lookup_insert_ne; [done|]. intros ->.
      rewrite Hr0 in Hr. injection Hr as ->. congruence.
  - (* a property is listed *)
    rewrite E. clear E. subst a. simpl in Hk. apply bool_decide_eq_true in Hk.
    split; [|split]; simpl.
    + intros r rq Hr Hs. destruct (HA r rq Hr Hs) as (prop & HP & Hreq).
      rewrite lookup_insert_ne by (by eapply fresh_property_lookup). eauto.
    + done.
    + intros p prop HP Hreq. rewrite lookup_insert in HP. case_decide.
      * injection HP as <-. done.
      * by eapply HC.
  - subst a. discriminate.
  - (* a property is deleted *)
    rewrite E. clear E.
    split; [|split]; simpl.
    + intros r rq Hr Hs. apply map_lookup_filter_Some in Hr as [Hr Hf].
      simpl in Hf. rewrite lookup_delete_ne by done. by eapply HA.
    + intros r1 r2 q1 q2 H1 H2.
      apply map_lookup_filter_Some in H1 as [H1 _].
      apply map_lookup_filter_Some in H2 as [H2 _]. by eapply HB.
    + intros p prop HP Hreq. rewrite lookup_delete in HP. case_decide; [done|].
      destruct (HC p prop HP Hreq) as (r & rq & Hr & Hp & Hs).
      exists r, rq. split; [|done]. apply map_lookup_filter_Some.
      split; [done|]. simpl. congruence.
  - subst a. discriminate.
Qed.

(** X6. Starting from a consistent store (the empty one is), as long as
    clients only call the three functions, list properties whose status is
    not requested and delete properties, the store stays consistent: every
    pending request points to a property that is requested, every requested
    property has a pending request, and no property has two pending
    requests. *)
Theorem reservations_stay_consistent (acts : list action) (st : store) :
  reservation_consistent st →
  forallb keeps_reservations acts = true →
  reservation_consistent (run acts st)
  ∧ ∀ r1 r2 req1 req2,
      requests (run acts st) !! r1 = Some req1 →
      requests (run acts st) !! r2 = Some req2 →
      Request.status req1 = pending → Request.status req2 = pending →
      Request.property_id req1 = Request.property_id req2 → r1 = r2.
Proof.
  intros Hc Hall.
  assert (reservation_consistent (run acts st)) as Hfin.
  { revert st Hc Hall. induction acts as [|a acts IH]; intros st Hc Hall; [done|].
    simpl in Hall. apply andb_true_iff in Hall as [Ha Hall].
    simpl. apply IH; [|done]. by apply exec_reservation_consistent. }
  split; [done|]. by destruct Hfin as (_ & HB & _).
Qed.

Lemma empty_store_consistent : reservation_consistent empty_store.
Proof.
  split; [|split]; simpl.
  - intros r req Hr. by rewrite lookup_empty in Hr.
  - intros r1 r2 q1 q2 H1. by rewrite lookup_empty in H1.
  - intros p prop HP. by rewrite lookup_empty in HP.
Qed.

Lemma reservations_stay_consistent_witness :
  reservation_consistent requested_store
  ∧ ∀ r1 r2 req1 req2,
      requests requested_store !! r1 = Some req1 →
      requests requested_store !! r2 = Some req2 →
      Request.status req1 = pending → Request.status req2 = pending →
      Request.property_id req1 = Request.property_id req2 → r1 = r2.
Proof.
  refine (reservations_stay_consistent
            [InsertProperty 1 (Property.mk 1 available); CreateRequest 2 0 None]
            empty_store _ _).
  - apply empty_store_consistent.
  - reflexivity.
Defined.

(** X7. In a consistent store a property that is sold or withdrawn is out of
    the reach of the three functions: whatever call is made, with whatever
    arguments, the property row is left exactly as it was. *)
Theorem closed_property_stays_closed (st : store) (a : action) (p : nat)
    (prop : Property.t) :
  reservation_consistent st →
  properties st !! p = Some prop →
  Property.status prop = sold ∨ Property.status prop = withdrawn →
  is_engine a = true →
  properties (exec a st) !! p = Some prop.
Proof.
  intros (HA & _ & _) HP Hst Ha.
  destruct (exec_shape st a) as
    [E|[(b & p0 & m & pr & _ & HP0 & Hav & _ & _ & E)
       |[(r0 & rq0 & v & ps & Hvs & Hr0 & Hs0 & E)
        |[(row & -> & _)
         |[(p0 & o & u & -> & _ & _)
          |[(p0 & o & -> & _ & _)
           |(uid & r0 & o & v & -> & _ & _ & _)]]]]]]; try discriminate.
  - by rewrite E.
  - rewrite E. simpl. rewrite lookup_insert_ne; [done|].
    intros ->. rewrite HP0 in HP. injection HP as ->. rewrite Hav in Hst.
    by destruct Hst.
  - rewrite E. simpl. rewrite lookup_alter_ne; [done|].
    intros Heq. destruct (HA r0 rq0 Hr0 Hs0) as (pr & HPr & Hreq).
    rewrite Heq, HP in HPr. injection HPr as <-. rewrite Hreq in Hst.
    by destruct Hst.
Qed.

Lemma closed_property_stays_closed_witness :
  properties (exec (CreateRequest 2 10 None)
                (mkStore {[ 10 := Property.mk 1 sold ]} ∅ [])) !! 10
  = Some (Property.mk 1 sold).
Proof.
  refine (closed_property_stays_closed (mkStore {[ 10 := Property.mk 1 sold ]} ∅ [])
            (CreateRequest 2 10 None) 10 (Property.mk 1 sold) _ _ _ _).
  - split; [|split]; simpl.
    + intros r req Hr. by rewrite lookup_empty in Hr.
    + intros r1 r2 q1 q2 H1. by rewrite lookup_empty in H1.
    + intros p prop HP. apply lookup_singleton_Some in HP as [_ <-]. discriminate.
  - reflexivity.
  - by left.
  - reflexivity.
Defined.

(** ** How the functions compose *)

Lemma create_request_success_inv b p m st R st1 :
  rpc (create_request b p m) st = (inr R, st1) →
  ∃ prop,
    properties st !! p = Some prop
    ∧ Property.status prop = available
    ∧ Property.seller_id prop ≠ b
    ∧ has_pending (requests st) b = false
    ∧ R = gen_random_uuid (requests st)
    ∧ st1 = mkStore (<[p := Property.mk (Property.seller_id prop) requested]>
                       (properties st))
                    (<[R := Request.mk b p (Property.seller_id prop) m pending]>
                       (requests st))
                    (property_history st ++
                       [History.mk p b "request_created"
                          [("status", JText "available")]
                          [("status", JText "requested"); ("request_id", JUuid R)]]).
Proof.
  unfold rpc. rewrite create_request_run. simpl.
  destruct (properties st !! p) as [prop|] eqn:HP; [|discriminate]. simpl.
  destruct (decide (Property.status prop = available)) as [Hav|]; [|discriminate].
  destruct (decide (Property.seller_id prop = b)) as [|Hs]; [discriminate|].
  destruct (has_pending (requests st) b) eqn:Hp; [discriminate|].
  simpl. intros [= <- <-]. exists prop. repeat (split; [done|]).
  by rewrite (alter_lookup_insert _ _ _ _ HP).
Qed.

(** X8. Once [create_request] has succeeded for a property, every further
    [create_request] for that property, by any buyer and with any message,
    fails with PropertyNotAvailable (P0001, the message naming the status
    requested) and changes nothing. *)
Theorem requested_property_rejects_requests (st st1 : store) (b p R : nat)
    (m : option string) :
  rpc (create_request b p m) st = (inr R, st1) →
  ∀ b' m',
    rpc (create_request b' p m') st1
    = (inl (mkError "P0001" "Property is not available (current status: requested)"),
       st1).
Proof.
  intros Hok b' m'.
  destruct (create_request_success_inv _ _ _ _ _ _ Hok)
    as (prop & HP & _ & _ & _ & _ & ->).
  unfold rpc. rewrite create_request_run. simpl. rewrite lookup_insert_eq. done.
Qed.

Lemma requested_property_rejects_requests_witness :
  rpc (create_request 3 10 (Some "me too"))
      (rpc (create_request 2 10 None) example_store).2
  = (inl (mkError "P0001" "Property is not available (current status: requested)"),
     (rpc (create_request 2 10 None) example_store).2).
Proof.
  refine (requested_property_rejects_requests example_store _ 2 10 0 None _
            3 (Some "me too")).
  reflexivity.
Defined.

(** X9. A request that is created and then cancelled by its buyer, or
    declined by the seller, gives the property back: the call returns true,
    the [properties] table is again exactly what it was before the request,
    the request row remains with status cancelled or declined, the buyer
    holds no pending request, and the same buyer can request the same
    property again. *)
Theorem create_then_release_restores (st st1 : store) (b p R : nat)
    (m : option string) (prop : Property.t) :
  properties st !! p = Some prop →
  rpc (create_request b p m) st = (inr R, st1) →
  (∃ st2, rpc (cancel_request R b) st1 = (inr true, st2)
          ∧ properties st2 = properties st
          ∧ requests st2
            = <[R := Request.mk b p (Property.seller_id prop) m cancelled]>
                (requests st)
          ∧ ¬ holds_pending st2 b
          ∧ ∀ m2, ∃ R2 st3, rpc (create_request b p m2) st2 = (inr R2, st3))
  ∧ (∃ st2, rpc (respond_to_request R (Property.seller_id prop) declined) st1
            = (inr true, st2)
          ∧ properties st2 = properties st
          ∧ requests st2
            = <[R := Request.mk b p (Property.seller_id prop) m declined]>
                (requests st)
          ∧ ¬ holds_pending st2 b
          ∧ ∀ m2, ∃ R2 st3, rpc (create_request b p m2) st2 = (inr R2, st3)).
Proof.
  intros HP Hok.
  destruct (create_request_success_inv _ _ _ _ _ _ Hok)
    as (prop' & HP' & Hav & Hsb & Hnp & HR & ->).
  rewrite HP in HP'. injection HP' as <-.
  assert (requests st !! R = None) as Hfresh
    by (rewrite HR; apply gen_random_uuid_fresh).
  assert (<[p := Property.mk (Property.seller_id prop) available]> (properties st)
          = properties st) as Hback.
  { apply insert_id. rewrite HP. f_equal. destruct prop as [s0 t0].
    simpl in *. by subst. }
  assert (∀ v, v ≠ pending →
            has_pending
              (<[R := Request.mk b p (Property.seller_id prop) m v]> (requests st)) b
            = false) as Hfree.
  { intros v Hv. apply has_pending_false. intros k req Hk Hb Hs.
    rewrite lookup_insert in Hk. case_decide.
    - injection Hk as <-. done.
    - pose proof (proj1 (has_pending_false _ _) Hnp) as Hn'. by eapply Hn'. }
  split.
  - eexists. unfold rpc at 1. rewrite cancel_request_run. simpl.
    rewrite lookup_insert_eq. simpl.
    rewrite !decide_True by done. simpl.
    split; [reflexivity|]. simpl.
    rewrite (alter_lookup_insert _ _ _ _ (lookup_insert_eq _ _ _)).
    rewrite !insert_insert_eq. unfold Property.set_status, Request.set_status. simpl.
    rewrite Hback.
    split; [done|]. split; [done|].
    split; [by apply not_holds_pending, Hfree|].
    intros m2. unfold rpc. rewrite create_request_run. simpl. rewrite HP.
    rewrite decide_True by done. rewrite decide_False by done.
    rewrite Hfree by done. simpl. eauto.
  - eexists. unfold rpc at 1. rewrite respond_to_request_run. simpl.
    rewrite lookup_insert_eq. simpl.
    rewrite !decide_True by done. simpl.
    split; [reflexivity|]. simpl.
    rewrite (alter_lookup_insert _ _ _ _ (lookup_insert_eq _ _ _)).
    rewrite !insert_insert_eq. unfold Property.set_status, Request.set_status. simpl.
    rewrite Hback.
    split; [done|]. split; [done|].
    split; [by apply not_holds_pending, Hfree|].
    intros m2. unfold rpc. rewrite create_request_run. simpl. rewrite HP.
    rewrite decide_True by done. rewrite decide_False by done.
    rewrite Hfree by done. simpl. eauto.
Qed.

Lemma create_then_release_restores_witness :
  ∃ st2, rpc (cancel_request 0 2) (rpc (create_request 2 10 None) example_store).2
         = (inr true, st2)
         ∧ properties st2 = properties example_store
         ∧ requests st2
           = <[0 := Request.mk 2 10 1 None cancelled]> (requests example_store)
         ∧ ¬ holds_pending st2 2
         ∧ ∀ m2, ∃ R2 st3, rpc (create_request 2 10 m2) st2 = (inr R2, st3).
Proof.
  refine (proj1 (create_then_release_restores example_store _ 2 10 0 None
                   (Property.mk 1 available) _ _)).
  - reflexivity.
  - reflexivity.
Defined.

(** X10. When the seller accepts a request that was just created, the call
    returns true, the property is sold, the request is accepted and the
    buyer holds no pending request any more; from then on every
    [create_request] for the property fails with PropertyNotAvailable
    (status sold) and the buyer's [cancel_request] fails with
    InvalidStateTransition (status accepted), both leaving the store
    unchanged. *)
Theorem create_then_accept_sells (st st1 : store) (b p R : nat)
    (m : option string) (prop : Property.t) :
  properties st !! p = Some prop →
  rpc (create_request b p m) st = (inr R, st1) →
  ∃ st2,
    rpc (respond_to_request R (Property.seller_id prop) accepted) st1
    = (inr true, st2)
    ∧ properties st2
      = <[p := Property.mk (Property.seller_id prop) sold]> (properties st)
    ∧ requests st2
      = <[R := Request.mk b p (Property.seller_id prop) m accepted]> (requests st)
    ∧ ¬ holds_pending st2 b
    ∧ (∀ b' m',
         rpc (create_request b' p m') st2
         = (inl (mkError "P0001" "Property is not available (current status: sold)"),
            st2))
    ∧ rpc (cancel_request R b) st2
      = (inl (mkError "P0001"
                "Only pending requests can be cancelled (current status: accepted)"),
         st2).
Proof.
  intros HP Hok.
  destruct (create_request_success_inv _ _ _ _ _ _ Hok)
    as (prop' & HP' & Hav & Hsb & Hnp & HR & ->).
  rewrite HP in HP'. injection HP' as <-.
  eexists. unfold rpc at 1. rewrite respond_to_request_run. simpl.
  rewrite lookup_insert_eq. simpl.
  rewrite !decide_True by done. simpl.
  split; [reflexivity|]. simpl.
  rewrite (alter_lookup_insert _ _ _ _ (lookup_insert_eq _ _ _)).
  rewrite !insert_insert_eq. unfold Property.set_status, Request.set_status. simpl.
  split; [done|]. split; [done|]. split; [|split].
  - apply not_holds_pending, has_pending_false. simpl. intros k req Hk Hb Hs.
    rewrite lookup_insert in Hk. case_decide.
    + injection Hk as <-. done.
    + pose proof (proj1 (has_pending_false _ _) Hnp) as Hn'. by eapply Hn'.
  - intros b' m'. unfold rpc. rewrite create_request_run. simpl.
    rewrite lookup_insert_eq. done.
  - unfold rpc. rewrite cancel_request_run. simpl.
    rewrite lookup_insert_eq. simpl. rewrite decide_True by done. done.
Qed.

Lemma create_then_accept_sells_witness :
  ∃ st2,
    rpc (respond_to_request 0 1 accepted)
        (rpc (create_request 2 10 None) example_store).2
    = (inr true, st2)
    ∧ properties st2 = <[10 := Property.mk 1 sold]> (properties example_store)
    ∧ requests st2 = <[0 := Request.mk 2 10 1 None accepted]> (requests example_store)
    ∧ ¬ holds_pending st2 2
    ∧ (∀ b' m',
         rpc (create_request b' 10 m') st2
         = (inl (mkError "P0001" "Property is not available (current status: sold)"),
            st2))
    ∧ rpc (cancel_request 0 2) st2
      = (inl (mkError "P0001"
                "Only pending requests can be cancelled (current status: accepted)"),
         st2).
Proof.
  refine (create_then_accept_sells example_store _ 2 10 0 None
            (Property.mk 1 available) _ _).
  - reflexivity.
  - reflexivity.
Defined.



(** ** The client queries *)

Section query_rows.
Context (P : nat * Request.t → Prop) `{!∀ kr, Decision (P kr)}.
Context (rs : gmap nat Request.t) (b : nat).
Hypothesis P_pending : ∀ kr, P kr → pending_of b kr.2.
Hypothesis unique :
  ∀ k1 k2 r1 r2, rs !! k1 = Some r1 → rs !! k2 = Some r2 →
                 pending_of b r1 → pending_of b r2 → k1 = k2.

Lemma query_rows_cases :
  (map_to_list (filter P rs) = [] ∧ ∀ k r, rs !! k = Some r → ¬ P (k, r))
  ∨ (∃ k r, map_to_list (filter P rs) = [(k, r)] ∧ rs !! k = Some r ∧ P (k, r)).
Proof using P_pending unique.
  destruct (map_to_list (filter P rs)) as [|[k r] rest] eqn:E.
  - left. split; [done|]. apply map_to_list_empty_iff, map_empty_filter_1 in E.
    intros k r Hk. by apply (E k r).
  - right. exists k, r.
    assert ((k, r) ∈ map_to_list (filter P rs)) as Hin by (rewrite E; left).
    apply elem_of_map_to_list, map_lookup_filter_Some in Hin as [Hk HP].
    split; [|done]. f_equal.
    destruct rest as [|[k' r'] rest]; [done|exfalso].
    assert ((k', r') ∈ map_to_list (filter P rs)) as Hin'
      by (rewrite E; right; left).
    apply elem_of_map_to_list, map_lookup_filter_Some in Hin' as [Hk' HP'].
    assert (k = k') as <-.
    { exact (unique k k' r r' Hk Hk' (P_pending (k, r) HP) (P_pending (k', r') HP')). }
    pose proof (NoDup_map_to_list (filter P rs)) as Hnd. rewrite E in Hnd.
    rewrite Hk in Hk'. injection Hk' as <-.
    apply NoDup_cons in Hnd as [Hnot _]. apply Hnot. left.
Qed.

Lemma query_rows_hit k r :
  rs !! k = Some r → P (k, r) → map_to_list (filter P rs) = [(k, r)].
Proof using P_pending unique.
  intros Hk HP.
  destruct query_rows_cases as [[_ Hnone]|(k' & r' & E & Hk' & HP')].
  - by destruct (Hnone k r Hk).
  - assert (k' = k) as ->.
    { exact (unique k' k r' r Hk' Hk (P_pending (k', r') HP') (P_pending (k, r) HP)). }
    rewrite Hk in Hk'. by injection Hk' as <-.
Qed.
End query_rows.

Lemma pending_inj_unique rs b :
  pending_inj rs →
  ∀ k1 k2 r1 r2, rs !! k1 = Some r1 → rs !! k2 = Some r2 →
                 pending_of b r1 → pending_of b r2 → k1 = k2.
Proof. intros Hinj k1 k2 r1 r2 H1 H2 P1 P2. by eapply (Hinj b). Qed.

Lemma select_own_request b req :
  Request.buyer_id req = b → RLS.requests_select_using b req = true.
Proof.
  intros <-. unfold RLS.requests_select_using.
  by rewrite bool_decide_eq_true_2.
Qed.

(** X12. In a reachable store the two "pending request" queries never fail
    with the multiple-rows error, whoever sends them.  Sent by the buyer,
    [getActiveRequest] returns the buyer's pending request with its property
    when there is one and null when there is none, and
    [getBuyerRequestForProperty] returns that request for the property it
    is for and null for every other property. *)
Theorem pending_request_queries (st : store) (b : nat) :
  reachable st →
  (∀ uid, ∃ res, Queries.getActiveRequest uid b st = inr res)
  ∧ (∀ uid p, ∃ res, Queries.getBuyerRequestForProperty uid b p st = inr res)
  ∧ (∀ r req,
       requests st !! r = Some req →
       Request.buyer_id req = b → Request.status req = pending →
       Queries.getActiveRequest b b st
       = inr (Some (r, req, properties st !! Request.property_id req))
       ∧ Queries.getBuyerRequestForProperty b b (Request.property_id req) st
         = inr (Some (r, req))
       ∧ ∀ p, p ≠ Request.property_id req →
              Queries.getBuyerRequestForProperty b b p st = inr None)
  ∧ (¬ holds_pending st b →
       Queries.getActiveRequest b b st = inr None
       ∧ ∀ p, Queries.getBuyerRequestForProperty b b p st = inr None).
Proof.
  intros Hreach. apply reachable_pending_inj in Hreach.
  pose proof (pending_inj_unique _ b Hreach) as Huniq.
  split; [|split; [|split]].
  - intros uid. unfold Queries.getActiveRequest, Queries.getActiveRequest_rows.
    edestruct (query_rows_cases
      (λ kr, RLS.requests_select_using uid kr.2 = true
             ∧ Request.buyer_id kr.2 = b ∧ Request.status kr.2 = pending)
      (requests st) b) as [[E _]|(k & r & E & _)];
      [by intros kr (_ & ? & ?)|exact Huniq| |]; rewrite E; simpl; eauto.
  - intros uid p. unfold Queries.getBuyerRequestForProperty,
      Queries.getBuyerRequestForProperty_rows.
    edestruct (query_rows_cases
      (λ kr, RLS.requests_select_using uid kr.2 = true
             ∧ Request.buyer_id kr.2 = b ∧ Request.property_id kr.2 = p
             ∧ Request.status kr.2 = pending)
      (requests st) b) as [[E _]|(k & r & E & _)];
      [by intros kr (_ & ? & _ & ?)|exact Huniq| |]; rewrite E; simpl; eauto.
  - intros r req Hr Hb Hs. split; [|split].
    + unfold Queries.getActiveRequest, Queries.getActiveRequest_rows.
      rewrite (query_rows_hit _ (requests st) b) with (k := r) (r := req); try done.
      * by intros kr (_ & ? & ?).
      * simpl. split; [by apply select_own_request|done].
    + unfold Queries.getBuyerRequestForProperty,
        Queries.getBuyerRequestForProperty_rows.
      rewrite (query_rows_hit _ (requests st) b) with (k := r) (r := req); try done.
      * by intros kr (_ & ? & _ & ?).
      * simpl. split; [by apply select_own_request|done].
    + intros p Hp. unfold Queries.getBuyerRequestForProperty,
        Queries.getBuyerRequestForProperty_rows.
      edestruct (query_rows_cases
        (λ kr, RLS.requests_select_using b kr.2 = true
               ∧ Request.buyer_id kr.2 = b ∧ Request.property_id kr.2 = p
               ∧ Request.status kr.2 = pending)
        (requests st) b) as [[E _]|(k & r' & E & Hk & (_ & Hb' & Hp' & Hs'))];
        [by intros kr (_ & ? & _ & ?)|exact Huniq| |]; [by rewrite E|].
      exfalso. simpl in *.
      assert (k = r) as -> by (by eapply (Huniq k r r' req)).
      rewrite Hr in Hk. injection Hk as <-. done.
  - intros Hnone.
    assert (∀ k r, requests st !! k = Some r → ¬ pending_of b r) as Hno.
    { intros k r Hk [Hb Hs]. apply Hnone. by exists k, r. }
    split; [|intros p].
    + unfold Queries.getActiveRequest, Queries.getActiveRequest_rows.
      edestruct (query_rows_cases
        (λ kr, RLS.requests_select_using b kr.2 = true
               ∧ Request.buyer_id kr.2 = b ∧ Request.status kr.2 = pending)
        (requests st) b) as [[E _]|(k & r & E & Hk & (_ & Hb & Hs))];
        [by intros kr (_ & ? & ?)|exact Huniq| |]; [by rewrite E|].
      by destruct (Hno k r Hk).
    + unfold Queries.getBuyerRequestForProperty,
        Queries.getBuyerRequestForProperty_rows.
      edestruct (query_rows_cases
        (λ kr, RLS.requests_select_using b kr.2 = true
               ∧ Request.buyer_id kr.2 = b ∧ Request.property_id kr.2 = p
               ∧ Request.status kr.2 = pending)
        (requests st) b) as [[E _]|(k & r & E & Hk & (_ & Hb & _ & Hs))];
        [by intros kr (_ & ? & _ & ?)|exact Huniq| |]; [by rewrite E|].
      by destruct (Hno k r Hk).
Qed.

Lemma pending_request_queries_witness :
  Queries.getActiveRequest 2 2 requested_store
  = inr (Some (0, Request.mk 2 0 1 None pending, properties requested_store !! 0))
  ∧ Queries.getBuyerRequestForProperty 2 2 0 requested_store
    = inr (Some (0, Request.mk 2 0 1 None pending))
  ∧ ∀ p, p ≠ 0 → Queries.getBuyerRequestForProperty 2 2 p requested_store = inr None.
Proof.
  refine (proj1 (proj2 (proj2 (pending_request_queries requested_store 2 _)))
            0 (Request.mk 2 0 1 None pending) _ _ _).
  - apply reachable_run, reachable_init.
  - reflexivity.
  - reflexivity.
  - reflexivity.
Defined.

Lemma client_createRequest_success_inv b p m st R st1 :
  Client.createRequest b p m st = (inr R, st1) →
  rpc (create_request b p (Client.or_null m)) st = (inr R, st1).
Proof.
  unfold Client.createRequest.
  destruct (rpc (create_request b p (Client.or_null m)) st) as [[e|R'] st'].
  - simpl. repeat case_match; discriminate.
  - simpl. by intros [= <- <-].
Qed.

(** X13. What [createRequest] stores is what the queries find.  After a
    successful [createRequest] the buyer's [getBuyerRequestForProperty] for
    that property and [getActiveRequest] both return the new request (id,
    buyer, property, the property's seller, the message with the empty
    string turned into null, status pending), the latter together with the
    property, now requested.  After the buyer's [cancelRequest], which
    succeeds, both queries return null. *)
Theorem created_request_is_found (st st1 : store) (b p R : nat)
    (m : option string) :
  Client.createRequest b p m st = (inr R, st1) →
  ∃ S,
    properties st !! p = Some (Property.mk S available)
    ∧ Queries.getBuyerRequestForProperty b b p st1
      = inr (Some (R, Request.mk b p S (Client.or_null m) pending))
    ∧ Queries.getActiveRequest b b st1
      = inr (Some (R, Request.mk b p S (Client.or_null m) pending,
                   Some (Property.mk S requested)))
    ∧ ∃ st2,
        Client.cancelRequest R b st1 = (inr true, st2)
        ∧ Queries.getBuyerRequestForProperty b b p st2 = inr None
        ∧ Queries.getActiveRequest b b st2 = inr None.
Proof.
  intros Hok. apply client_createRequest_success_inv in Hok.
  destruct (create_request_success_inv _ _ _ _ _ _ Hok)
    as (prop & HP & Hav & Hsb & Hnp & HR & ->).
  pose proof (proj1 (has_pending_false _ _) Hnp) as Hno.
  assert (requests st !! R = None) as Hfresh
    by (rewrite HR; apply gen_random_uuid_fresh).
  set (new := Request.mk b p (Property.seller_id prop) (Client.or_null m) pending).
  exists (Property.seller_id prop).
  split. { rewrite HP. f_equal. destruct prop; simpl in *; by subst. }
  assert (∀ k1 k2 r1 r2,
            <[R := new]> (requests st) !! k1 = Some r1 →
            <[R := new]> (requests st) !! k2 = Some r2 →
            pending_of b r1 → pending_of b r2 → k1 = k2) as Huniq.
  { intros k1 k2 r1 r2 H1 H2 [B1 S1] [B2 S2]. rewrite lookup_insert in H1, H2.
    destruct (decide (R = k1)) as [<-|], (decide (R = k2)) as [<-|]; try done.
    - exfalso. by eapply (Hno k2 r2).
    - exfalso. by eapply (Hno k1 r1).
    - exfalso. by eapply (Hno k1 r1). }
  split; [|split].
  - unfold Queries.getBuyerRequestForProperty,
      Queries.getBuyerRequestForProperty_rows. simpl.
    rewrite (query_rows_hit _ (<[R := new]> (requests st)) b) with (k := R) (r := new);
      try done.
    + by intros kr (_ & ? & _ & ?).
    + by rewrite lookup_insert_eq.
    + simpl. split; [by apply select_own_request|done].
  - unfold Queries.getActiveRequest, Queries.getActiveRequest_rows. simpl.
    rewrite (query_rows_hit _ (<[R := new]> (requests st)) b) with (k := R) (r := new);
      try done.
    + simpl. by rewrite lookup_insert_eq.
    + by intros kr (_ & ? & ?).
    + by rewrite lookup_insert_eq.
    + simpl. split; [by apply select_own_request|done].
  - eexists. unfold Client.cancelRequest, rpc. rewrite cancel_request_run. simpl.
    rewrite lookup_insert_eq. simpl. rewrite !decide_True by done. simpl.
    split; [reflexivity|]. simpl. rewrite insert_insert_eq.
    set (gone := Request.set_status cancelled new).
    assert (∀ k r, <[R := gone]> (requests st) !! k = Some r → ¬ pending_of b r)
      as Hnone.
    { intros k r Hk [Hb Hs]. rewrite lookup_insert in Hk. case_decide.
      - injection Hk as <-. done.
      - by eapply (Hno k r). }
    assert (∀ k1 k2 r1 r2,
              <[R := gone]> (requests st) !! k1 = Some r1 →
              <[R := gone]> (requests st) !! k2 = Some r2 →
              pending_of b r1 → pending_of b r2 → k1 = k2) as Huniq'.
    { intros k1 k2 r1 r2 H1 _ P1 _. by destruct (Hnone k1 r1 H1). }
    split.
    + unfold Queries.getBuyerRequestForProperty,
        Queries.getBuyerRequestForProperty_rows. simpl.
      edestruct (query_rows_cases
        (λ kr, RLS.requests_select_using b kr.2 = true
               ∧ Request.buyer_id kr.2 = b ∧ Request.property_id kr.2 = p
               ∧ Request.status kr.2 = pending)
        (<[R := gone]> (requests st)) b)
        as [[E _]|(k & r & E & Hk & (_ & Hb & _ & Hs))];
        [by intros kr (_ & ? & _ & ?)|exact Huniq'| |]; [by rewrite E|].
      by destruct (Hnone k r Hk).
    + unfold Queries.getActiveRequest, Queries.getActiveRequest_rows. simpl.
      edestruct (query_rows_cases
        (λ kr, RLS.requests_select_using b kr.2 = true
               ∧ Request.buyer_id kr.2 = b ∧ Request.status kr.2 = pending)
        (<[R := gone]> (requests st)) b)
        as [[E _]|(k & r & E & Hk & (_ & Hb & Hs))];
        [by intros kr (_ & ? & ?)|exact Huniq'| |]; [by rewrite E|].
      by destruct (Hnone k r Hk).
Qed.

Lemma created_request_is_found_witness :
  ∃ S,
    properties example_store !! 10 = Some (Property.mk S available)
    ∧ Queries.getBuyerRequestForProperty 2 2 10
        (Client.createRequest 2 10 (Some "") example_store).2
      = inr (Some (0, Request.mk 2 10 S (Client.or_null (Some "")) pending))
    ∧ Queries.getActiveRequest 2 2
        (Client.createRequest 2 10 (Some "") example_store).2
      = inr (Some (0, Request.mk 2 10 S (Client.or_null (Some "")) pending,
                   Some (Property.mk S requested)))
    ∧ ∃ st2,
        Client.cancelRequest 0 2 (Client.createRequest 2 10 (Some "") example_store).2
        = (inr true, st2)
        ∧ Queries.getBuyerRequestForProperty 2 2 10 st2 = inr None
        ∧ Queries.getActiveRequest 2 2 st2 = inr None.
Proof.
  refine (created_request_is_found example_store _ 2 10 0 (Some "") _).
  reflexivity.
Defined.

(** ** The catch blocks of the wrappers *)

Lemma or_default_idem s d :
  Client.or_default (Client.or_default s d) d = Client.or_default s d.
Proof. destruct s; simpl; [by destruct d|done]. Qed.

(** X14. The [catch] blocks of [createRequest] and [cancelRequest] never
    change an error thrown by their [try] block, whatever [supabase.rpc]
    answered (an error of the function or of the transport, with any code
    and any message): the class and the message chosen in the [try] block
    are what the caller receives. *)
Theorem catch_keeps_thrown_error (e : Client.exn) :
  (∀ resp, Client.createRequest_try resp = inl e → Client.createRequest_catch e = e)
  ∧ (∀ resp, Client.cancelRequest_try resp = inl e → Client.cancelRequest_catch e = e).
Proof.
  split; intros [error|data]; simpl; try discriminate.
  - destruct (String.eqb (errcode error) "P0001"); [by intros [= <-]|].
    destruct (String.eqb (errcode error) "23505"); [by intros [= <-]|].
    destruct (Client.includes "network" (errmsg error)
              || Client.includes "fetch" (errmsg error)) eqn:Hinc;
      [by intros [= <-]|].
    intros [= <-]. simpl. rewrite or_default_idem.
    destruct (errmsg error) as [|c rest] eqn:Hm; [done|].
    simpl Client.or_default. by rewrite Hinc.
  - intros [= <-]. unfold Client.cancelRequest_catch. simpl.
    by rewrite or_default_idem.
Qed.

Lemma catch_keeps_thrown_error_witness :
  Client.createRequest_catch (Client.NetworkError "network request failed")
  = Client.NetworkError "network request failed".
Proof.
  refine (proj1 (catch_keeps_thrown_error (Client.NetworkError "network request failed"))
            (inl (mkError "" "network request failed")) _).
  reflexivity.
Defined.

(** X15. An error raised by [create_request] is never reported by
    [createRequest] as a [NetworkError]: none of the function's messages
    contains "network" or "fetch", so the screen's retry dialog is only
    ever offered for failures of the transport. *)
Theorem function_errors_are_not_network_errors (st : store) (b p : nat)
    (m : option string) (msg : string) :
  (Client.createRequest b p m st).1 ≠ inl (Client.NetworkError msg).
Proof.
  unfold Client.createRequest, rpc. rewrite create_request_run. simpl.
  destruct (properties st !! p) as [prop|]; [|done].
  repeat case_decide; try done.
  destruct (has_pending (requests st) b); done.
Qed.

(** ** The push token format *)

Section regex_facts.
Import Push.
Implicit Types (r : regex) (s : list N) (c : N).

Lemma matches_void s : ¬ Matches Void s.
Proof. intros H. inversion H. Qed.

Lemma matches_eps s : Matches Eps s ↔ s = [].
Proof. split; [by inversion 1|intros ->; constructor]. Qed.

Lemma matches_seq r1 r2 s :
  Matches (Seq r1 r2) s ↔ ∃ s1 s2, s = s1 ++ s2 ∧ Matches r1 s1 ∧ Matches r2 s2.
Proof.
  split.
  - inversion 1; subst. eauto.
  - intros (s1 & s2 & -> & H1 & H2). by constructor.
Qed.

Lemma matches_alt r1 r2 s : Matches (Alt r1 r2) s ↔ Matches r1 s ∨ Matches r2 s.
Proof.
  split.
  - inversion 1; subst; auto.
  - intros [H|H]; [by apply MAltL|by apply MAltR].
Qed.

Lemma nullable_spec r : nullable r = true ↔ Matches r [].
Proof.
  induction r as [| | | |r1 IH1 r2 IH2|r1 IH1 r2 IH2|r IH]; simpl.
  - split; [done|]. by intros H%matches_void.
  - split; [constructor|done].
  - split; [done|]. inversion 1.
  - split; [done|]. inversion 1.
  - rewrite andb_true_iff, IH1, IH2, matches_seq. split.
    + intros [H1 H2]. by exists [], [].
    + intros (s1 & s2 & Hs & H1 & H2). symmetry in Hs.
      apply app_eq_nil in Hs as [-> ->]. done.
  - by rewrite orb_true_iff, IH1, IH2, matches_alt.
  - split; [constructor|done].
Qed.

Lemma matches_star_cons r c s :
  Matches (Star r) (c :: s) →
  ∃ s1 s2, s = s1 ++ s2 ∧ Matches r (c :: s1) ∧ Matches (Star r) s2.
Proof.
  intros H. remember (Star r) as r' eqn:Hr. remember (c :: s) as w eqn:Hw.
  revert s Hw. induction H as [| | | | | | |r0 s1 s2 H1 _ H2 IH2];
    intros t Hw; try discriminate.
  injection Hr as ->. destruct s1 as [|c1 s1].
  - simpl in Hw. by apply IH2.
  - simpl in Hw. injection Hw as -> <-. by exists s1, s2.
Qed.

Lemma deriv_spec r c s : Matches (deriv c r) s ↔ Matches r (c :: s).
Proof.
  revert s. induction r as [| | c'| |r1 IH1 r2 IH2|r1 IH1 r2 IH2|r IH];
    intros s; simpl.
  - split; intros H; inversion H.
  - split; intros H; inversion H.
  - case_bool_decide as Hc.
    + subst c'. rewrite matches_eps. split; [intros ->; constructor|by inversion 1].
    + split; [by intros H%matches_void|]. inversion 1; subst. done.
  - destruct (line_terminator c) eqn:Hl.
    + split; [by intros H%matches_void|]. inversion 1; subst. congruence.
    + rewrite matches_eps. split; [intros ->; by constructor|by inversion 1].
  - assert (Matches (Seq (deriv c r1) r2) s ↔
            ∃ s1 s2, s = s1 ++ s2 ∧ Matches r1 (c :: s1) ∧ Matches r2 s2) as Hleft.
    { rewrite matches_seq. by setoid_rewrite IH1. }
    rewrite (matches_seq r1 r2). split.
    + intros H.
      assert (Matches (Seq (deriv c r1) r2) s
              ∨ (nullable r1 = true ∧ Matches (deriv c r2) s)) as [H'|[Hn H']].
      { destruct (nullable r1); [|by left].
        apply matches_alt in H as [H|H]; [by left|by right]. }
      * apply Hleft in H' as (s1 & s2 & -> & H1 & H2).
        by exists (c :: s1), s2.
      * exists [], (c :: s). split; [done|].
        split; [by apply nullable_spec|by apply IH2].
    + intros (s1 & s2 & Hs & H1 & H2). destruct s1 as [|c1 s1].
      * simpl in Hs. subst s2. apply nullable_spec in H1. rewrite H1.
        apply MAltR. by apply IH2.
      * simpl in Hs. injection Hs as <- ->.
        assert (Matches (Seq (deriv c r1) r2) (s1 ++ s2)) as H'
          by (apply Hleft; eauto).
        destruct (nullable r1); [by apply MAltL|done].
  - by rewrite !matches_alt, IH1, IH2.
  - rewrite matches_seq. split.
    + intros (s1 & s2 & -> & H1 & H2). apply IH in H1.
      by apply (MStarApp r (c :: s1) s2).
    + intros H. apply matches_star_cons in H as (s1 & s2 & -> & H1 & H2).
      exists s1, s2. split; [done|]. split; [by apply IH|done].
Qed.

Lemma regex_test_spec r s : regex_test r s = true ↔ Matches r s.
Proof.
  revert r. induction s as [|c s IH]; intros r; simpl.
  - apply nullable_spec.
  - by rewrite IH, deriv_spec.
Qed.

Lemma matches_lit_list l s : Matches (lit_list l) s ↔ s = l.
Proof.
  revert s. induction l as [|c l IH]; intros s; simpl.
  - apply matches_eps.
  - rewrite matches_seq. split.
    + intros (s1 & s2 & -> & H1 & H2). inversion H1; subst.
      apply IH in H2 as ->. done.
    + intros ->. exists [c], l. split; [done|]. split; [constructor|by apply IH].
Qed.

Lemma matches_star_any s :
  Matches (Star AnyChar) s ↔ Forall (λ c, line_terminator c = false) s.
Proof.
  split.
  - intros H. remember (Star AnyChar) as r eqn:Hr.
    induction H as [| | | | | | |r0 s1 s2 H1 _ H2 IH2]; try discriminate.
    + constructor.
    + injection Hr as ->. inversion H1; subst. constructor; [done|by apply IH2].
  - induction 1 as [|c s Hc _ IH]; [constructor|].
    apply (MStarApp AnyChar [c] s); [by constructor|done].
Qed.

Lemma matches_plus_any s :
  Matches (plus AnyChar) s ↔ s ≠ [] ∧ Forall (λ c, line_terminator c = false) s.
Proof.
  unfold plus. rewrite matches_seq. split.
  - intros (s1 & s2 & -> & H1 & H2). inversion H1; subst.
    apply matches_star_any in H2. split; [done|]. by constructor.
  - intros [Hne Hall]. destruct s as [|c s]; [done|].
    apply Forall_cons in Hall as [Hc Hall].
    exists [c], s. split; [done|]. split; [by constructor|by apply matches_star_any].
Qed.
End regex_facts.

(** X16. [isValidExpoPushToken] accepts exactly the tokens made of
    [ExpoPushToken\[] or [ExponentPushToken\[], then at least one code unit
    none of which is a line terminator (LF, CR, U+2028, U+2029), then a
    closing bracket at the very end.  So an empty pair of brackets, a
    missing closing bracket, text after it, or a line break inside the
    token make it invalid. *)
Theorem isValidExpoPushToken_spec (token : list N) :
  Push.isValidExpoPushToken token = true ↔
  ∃ inner,
    inner ≠ []
    ∧ Forall (λ c, c ∉ [10; 13; 8232; 8233]%N) inner
    ∧ (token = Push.js "ExpoPushToken[" ++ inner ++ Push.js "]"
       ∨ token = Push.js "ExponentPushToken[" ++ inner ++ Push.js "]").
Proof.
  unfold Push.isValidExpoPushToken. rewrite regex_test_spec.
  unfold Push.expo_token_regex, Push.optional, Push.lit.
  assert (∀ inner, Forall (λ c, Push.line_terminator c = false) inner
                   ↔ Forall (λ c, c ∉ [10; 13; 8232; 8233]%N) inner) as Hterm.
  { intros inner. apply Forall_proper; [|done]. intros c.
    unfold Push.line_terminator. by rewrite bool_decide_eq_false. }
  split.
  - intros H.
    apply matches_seq in H as (s1 & t1 & -> & H1%matches_lit_list & H).
    apply matches_seq in H as (s2 & t2 & -> & H2%matches_alt & H).
    apply matches_seq in H as (s3 & t3 & -> & H3%matches_lit_list & H).
    apply matches_seq in H as (s4 & t4 & -> & [Hne Hall]%matches_plus_any
                                 & H5%matches_lit_list).
    subst. exists s4. split; [done|]. split; [by apply Hterm|].
    destruct H2 as [->%matches_lit_list | ->%matches_eps]; [by right|by left].
  - intros (inner & Hne & Hall & [-> | ->]).
    + apply matches_seq. exists (Push.js "Expo"), (Push.js "PushToken[" ++ inner ++ Push.js "]").
      split; [done|]. split; [by apply matches_lit_list|].
      apply matches_seq. exists [], (Push.js "PushToken[" ++ inner ++ Push.js "]").
      split; [done|]. split; [apply matches_alt; right; constructor|].
      apply matches_seq. exists (Push.js "PushToken["), (inner ++ Push.js "]").
      split; [done|]. split; [by apply matches_lit_list|].
      apply matches_seq. exists inner, (Push.js "]").
      split; [done|]. split; [|by apply matches_lit_list].
      apply matches_plus_any. split; [done|by apply Hterm].
    + apply matches_seq.
      exists (Push.js "Expo"), (Push.js "nentPushToken[" ++ inner ++ Push.js "]").
      split; [done|]. split; [by apply matches_lit_list|].
      apply matches_seq.
      exists (Push.js "nent"), (Push.js "PushToken[" ++ inner ++ Push.js "]").
      split; [done|]. split; [apply matches_alt; left; by apply matches_lit_list|].
      apply matches_seq. exists (Push.js "PushToken["), (inner ++ Push.js "]").
      split; [done|]. split; [by apply matches_lit_list|].
      apply matches_seq. exists inner, (Push.js "]").
      split; [done|]. split; [|by apply matches_lit_list].
      apply matches_plus_any. split; [done|by apply Hterm].
Qed.

(** ** Retries of the push *)

Section push_retries.
Local Opaque Nat.mul.

Lemma delivered_not_ok status text data :
  Push.response_ok status = false →
  Push.delivered (Push.Responds status text data) = false.
Proof. intros Hok. simpl. rewrite Hok. by destruct data as [[|? ?]|]. Qed.

Lemma send_from_spec net fuel attempt :
  attempt + fuel = Push.MAX_RETRIES + 1 → 1 ≤ fuel →
  ∃ t n,
    Push.sendExpoPushNotification_from fuel net attempt = Some t
    ∧ attempt ≤ n ≤ Push.MAX_RETRIES
    ∧ Push.attempts t = seq attempt (n + 1 - attempt)
    ∧ Push.sleeps t = (λ k, Push.RETRY_DELAY_MS * k) <$> seq attempt (n - attempt)
    ∧ (∀ k, attempt ≤ k < n → Push.retryable (net k) = true)
    ∧ (n < Push.MAX_RETRIES → Push.retryable (net n) = false)
    ∧ Push.success (Push.result t) = Push.delivered (net n).
Proof.
  revert attempt. induction fuel as [|fuel IH]; intros attempt Hsum Hfuel; [lia|].
  assert (∀ r, Push.success r = Push.delivered (net attempt) →
               (attempt < Push.MAX_RETRIES → Push.retryable (net attempt) = false) →
               ∃ t n,
                 Push.stop attempt r = Some t
                 ∧ attempt ≤ n ≤ Push.MAX_RETRIES
                 ∧ Push.attempts t = seq attempt (n + 1 - attempt)
                 ∧ Push.sleeps t
                   = (λ k, Push.RETRY_DELAY_MS * k) <$> seq attempt (n - attempt)
                 ∧ (∀ k, attempt ≤ k < n → Push.retryable (net k) = true)
                 ∧ (n < Push.MAX_RETRIES → Push.retryable (net n) = false)
                 ∧ Push.success (Push.result t) = Push.delivered (net n)) as Hstop.
  { intros r Hr Hnr. eexists _, attempt. split; [reflexivity|]. simpl.
    split; [lia|]. replace (attempt + 1 - attempt) with 1 by lia.
    replace (attempt - attempt) with 0 by lia. simpl.
    split; [done|]. split; [done|]. split; [lia|]. done. }
  assert (attempt < Push.MAX_RETRIES → Push.retryable (net attempt) = true →
          ∃ t n,
            Push.after_delay attempt
              (Push.sendExpoPushNotification_from fuel net (attempt + 1)) = Some t
            ∧ attempt ≤ n ≤ Push.MAX_RETRIES
            ∧ Push.attempts t = seq attempt (n + 1 - attempt)
            ∧ Push.sleeps t
              = (λ k, Push.RETRY_DELAY_MS * k) <$> seq attempt (n - attempt)
            ∧ (∀ k, attempt ≤ k < n → Push.retryable (net k) = true)
            ∧ (n < Push.MAX_RETRIES → Push.retryable (net n) = false)
            ∧ Push.success (Push.result t) = Push.delivered (net n)) as Hretry.
  { intros Hlt Hre.
    destruct (IH (attempt + 1)) as (t & n & -> & Hn & Ha & Hs & Hk & Hl & Hd);
      [lia|lia|].
    eexists _, n. split; [reflexivity|]. simpl. split; [lia|].
    replace (n + 1 - attempt) with (S (n + 1 - (attempt + 1))) by lia.
    replace (n - attempt) with (S (n - (attempt + 1))) by lia. simpl.
    replace (S attempt) with (attempt + 1) by lia.
    rewrite Ha, Hs. split; [done|]. split; [done|]. split; [|done].
    intros k Hkr. destruct (decide (k = attempt)) as [->|]; [done|].
    apply Hk. lia. }
  simpl. destruct (net attempt) as [msg|status text data] eqn:Hnet.
  - case_bool_decide as Hlt.
    + apply Hretry; [done|]. by rewrite ?Hnet.
    + apply Hstop; [by rewrite ?Hnet|done].
  - destruct (Push.response_ok status) eqn:Hok; simpl.
    + destruct data as [[|t ts]|].
      * apply Hstop; rewrite ?Hnet; simpl; [done|]. by rewrite Hok.
      * destruct (String.eqb (Push.ticket_status t) "error") eqn:He.
        { apply Hstop; rewrite ?Hnet; simpl; rewrite Hok; [|done].
          rewrite He. apply String.eqb_eq in He. by rewrite He. }
        destruct (String.eqb (Push.ticket_status t) "ok") eqn:Ho;
          apply Hstop; rewrite ?Hnet; simpl; rewrite Hok; try done;
          by rewrite He, Ho.
      * apply Hstop; rewrite ?Hnet; simpl; [done|]. by rewrite Hok.
    + destruct (bool_decide (500 ≤ status) || bool_decide (status = 429)) eqn:Hst;
        simpl.
      * destruct (bool_decide (attempt < Push.MAX_RETRIES)) eqn:Hlt.
        { apply bool_decide_eq_true in Hlt.
          apply Hretry; [done|]. rewrite ?Hnet. simpl. by rewrite Hok, Hst. }
        apply bool_decide_eq_false in Hlt.
        apply Hstop; [|done]. rewrite ?Hnet. by rewrite delivered_not_ok.
      * apply Hstop; rewrite ?Hnet; [by rewrite delivered_not_ok|].
        simpl. by rewrite Hok, Hst.
Qed.
End push_retries.

(** X17. [sendExpoPushNotification] always returns, after at most three
    calls of the Expo API.  It calls again exactly while the outcome is an
    exception, a 5xx status or 429 and fewer than three attempts were made,
    sleeping 1000 ms times the attempt number before each new call (at most
    3000 ms in all); any other response, a 4xx status included, ends it at
    once.  It reports success exactly when the last outcome is an ok
    response whose first ticket has status ok. *)
Theorem push_retries_bounded (net : nat → Push.fetch_outcome) :
  ∃ t n,
    Push.sendExpoPushNotification net = Some t
    ∧ 1 ≤ n ≤ 3
    ∧ Push.attempts t = seq 1 n
    ∧ Push.sleeps t = (λ k, 1000 * k) <$> seq 1 (n - 1)
    ∧ sum_list (Push.sleeps t) ≤ 3000
    ∧ (∀ k, 1 ≤ k < n → Push.retryable (net k) = true)
    ∧ (n < 3 → Push.retryable (net n) = false)
    ∧ Push.success (Push.result t) = Push.delivered (net n).
Proof.
  destruct (send_from_spec net Push.MAX_RETRIES 1)
    as (t & n & Ht & Hn & Ha & Hs & Hk & Hl & Hd);
    [done|unfold Push.MAX_RETRIES; lia|].
  exists t, n. unfold Push.MAX_RETRIES, Push.RETRY_DELAY_MS in *.
  split; [done|]. split; [done|].
  replace (n + 1 - 1) with n in Ha by lia.
  split; [done|]. split; [done|]. split; [|done].
  rewrite Hs. destruct Hn as [Hn1 Hn3].
  destruct n as [|[|[|[|n]]]]; simpl; lia.
Qed.

(** ** The handler of the push function *)

Lemma send_spec net :
  ∃ t n,
    Push.sendExpoPushNotification net = Some t
    ∧ 1 ≤ n ≤ 3
    ∧ Push.attempts t = seq 1 n
    ∧ Push.success (Push.result t) = Push.delivered (net n).
Proof.
  destruct (send_from_spec net Push.MAX_RETRIES 1)
    as (t & n & Ht & Hn & Ha & _ & _ & _ & Hd);
    [done|unfold Push.MAX_RETRIES; lia|].
  exists t, n. unfold Push.MAX_RETRIES in *.
  replace (n + 1 - 1) with n in Ha by lia. done.
Qed.

Lemma truthy_Some {A} (o : option (list A)) l :
  Push.truthy o = Some l → o = Some l ∧ l ≠ [].
Proof. destruct o as [[|c rest]|]; simpl; [done| |done]. by intros [= <-]. Qed.

(** X18. The handler sends a push only after every check has passed: when
    it composed a message or called the Expo API, the method was POST, the
    body carried a non-empty [request_id], the request was found, and the
    message goes to the seller's token, which has the Expo format.  The
    message quotes at most the first 100 code units of the buyer's message:
    its body is never longer than the buyer's name plus 135 code units. *)
Theorem handler_pushes_only_valid_tokens (req : Push.http_request)
    (url key : option string)
    (fetchRequestDetails : list N → option Push.RequestDetails)
    (net : nat → Push.fetch_outcome) :
  let resp := Push.handler req url key fetchRequestDetails net in
  (Push.push_attempts resp ≠ [] → is_Some (Push.pushed resp))
  ∧ (∀ msg, Push.pushed resp = Some msg →
       Push.method req = "POST"
       ∧ ∃ rid d,
           Push.payload req = Some (Some rid) ∧ rid ≠ []
           ∧ fetchRequestDetails rid = Some d
           ∧ Push.seller_expo_token d = Some (Push.to msg)
           ∧ Push.isValidExpoPushToken (Push.to msg) = true
           ∧ msg = Push.pushMessage rid d (Push.to msg)
           ∧ length (Push.body msg) ≤ length (Push.buyer_name d) + 135).
Proof.
  unfold Push.handler.
  destruct (String.eqb (Push.method req) "OPTIONS"); [by split|].
  destruct (String.eqb (Push.method req) "POST") eqn:Hm; simpl; [|by split].
  apply String.eqb_eq in Hm.
  destruct (Push.payload req) as [rid|]; [|by split].
  destruct (Push.truthy rid) as [request_id|] eqn:Hrid; [|by split].
  apply truthy_Some in Hrid as [-> Hne].
  destruct (negb (Push.truthy_string url) || negb (Push.truthy_string key));
    [by split|].
  destruct (fetchRequestDetails request_id) as [d|] eqn:Hd; [|by split].
  destruct (Push.truthy (Push.seller_expo_token d)) as [token|] eqn:Htok;
    [|by split].
  apply truthy_Some in Htok as [Htok _].
  destruct (Push.isValidExpoPushToken token) eqn:Hvalid; simpl; [|by split].
  assert (length (Push.body (Push.pushMessage request_id d token))
          ≤ length (Push.buyer_name d) + 135) as Hlen.
  { assert (length (Push.js " is interested in your property") = 31) as H31
      by reflexivity.
    assert (length (Push.js ": ") = 2) as H2 by reflexivity.
    unfold Push.pushMessage. cbn [Push.body]. rewrite !length_app, H31.
    destruct (Push.truthy (Push.message d)) as [m|].
    - rewrite !length_app, length_take, H2. cbn [length]. lia.
    - cbn [length]. lia. }
  destruct (send_spec net) as (t & n & -> & _ & _ & _).
  destruct (Push.success (Push.result t)); simpl.
  - split; [eauto|]. intros msg [= <-]. split; [done|].
    exists request_id, d. done.
  - split; [eauto|]. intros msg [= <-]. split; [done|].
    exists request_id, d. done.
Qed.

Lemma handler_pushes_only_valid_tokens_witness :
  is_Some (Push.pushed example_response).
Proof.
  refine (proj1 (handler_pushes_only_valid_tokens
                   (Push.mkRequest "POST" (Some (Some (Push.js "r1"))))
                   (Some "https://x") (Some "key") (λ _, Some example_details)
                   example_net) _).
  vm_compute. discriminate.
Defined.

(** X19. The handler answers with one of the statuses 200, 400, 404, 405
    and 500.  It reports success only with status 200 and only when one of
    at most three calls of the Expo API, tried in order, came back
    delivered.  A reply with status 200 and success false is given only
    when the request was found but its seller has no push token (none, or
    an empty one), and then the Expo API was not called.  Only a preflight
    (OPTIONS) gets a reply without a success flag. *)
Theorem handler_outcomes (req : Push.http_request) (url key : option string)
    (fetchRequestDetails : list N → option Push.RequestDetails)
    (net : nat → Push.fetch_outcome) :
  let resp := Push.handler req url key fetchRequestDetails net in
  Push.status resp ∈ [200; 400; 404; 405; 500]
  ∧ (Push.response_success resp = None ↔ Push.method req = "OPTIONS")
  ∧ (Push.response_success resp = Some true →
       Push.status resp = 200
       ∧ ∃ n, 1 ≤ n ≤ 3 ∧ Push.push_attempts resp = seq 1 n
              ∧ Push.delivered (net n) = true)
  ∧ (Push.status resp = 200 → Push.response_success resp = Some false →
       Push.push_attempts resp = []
       ∧ ∃ rid d, Push.payload req = Some (Some rid)
                  ∧ fetchRequestDetails rid = Some d
                  ∧ Push.truthy (Push.seller_expo_token d) = None).
Proof.
  unfold Push.handler.
  destruct (String.eqb (Push.method req) "OPTIONS") eqn:Ho.
  { apply String.eqb_eq in Ho. simpl. split; [repeat constructor|]. by repeat split. }
  apply String.eqb_neq in Ho.
  destruct (String.eqb (Push.method req) "POST") eqn:Hm; simpl.
  2: { split; [repeat constructor|]. by repeat split. }
  destruct (Push.payload req) as [rid|].
  2: { split; [repeat constructor|]. by repeat split. }
  destruct (Push.truthy rid) as [request_id|] eqn:Hrid.
  2: { split; [repeat constructor|]. by repeat split. }
  apply truthy_Some in Hrid as [-> Hne].
  destruct (negb (Push.truthy_string url) || negb (Push.truthy_string key)).
  { split; [repeat constructor|]. by repeat split. }
  destruct (fetchRequestDetails request_id) as [d|] eqn:Hd.
  2: { split; [repeat constructor|]. by repeat split. }
  destruct (Push.truthy (Push.seller_expo_token d)) as [token|] eqn:Htok.
  2: { split; [repeat constructor|]. simpl. split; [by split|]. split; [done|].
       intros _ _. split; [done|]. by exists request_id, d. }
  destruct (Push.isValidExpoPushToken token) eqn:Hvalid; simpl.
  2: { split; [repeat constructor|]. by repeat split. }
  destruct (send_spec net) as (t & n & -> & Hn & Ha & Hs).
  destruct (Push.success (Push.result t)); simpl.
  - split; [repeat constructor|]. split; [by split|]. split; [|done].
    intros _. split; [done|]. by exists n.
  - split; [repeat constructor|]. by repeat split.
Qed.

Lemma handler_outcomes_witness :
  Push.status example_response = 200
  ∧ ∃ n, 1 ≤ n ≤ 3 ∧ Push.push_attempts example_response = seq 1 n
         ∧ Push.delivered (example_net n) = true.
Proof.
  refine (proj1 (proj2 (proj2 (handler_outcomes
                   (Push.mkRequest "POST" (Some (Some (Push.js "r1"))))
                   (Some "https://x") (Some "key") (λ _, Some example_details)
                   example_net))) _).
  vm_compute. reflexivity.
Defined.

(** ** Deleting a property *)

(** X20. When its owner deletes a property, the row is gone together with
    every request and every history record that refers to it, and all other
    rows are left as they were; in a reachable store a buyer whose pending
    request was for that property holds no pending request afterwards.  A
    DELETE sent by anybody else changes nothing. *)
Theorem delete_property_cascades (st : store) (p : nat) (old : Property.t) :
  properties st !! p = Some old →
  (let st' := exec (DeleteProperty (Property.seller_id old) p) st in
   properties st' = delete p (properties st)
   ∧ (∀ r req, requests st' !! r = Some req ↔
               requests st !! r = Some req ∧ Request.property_id req ≠ p)
   ∧ (∀ h, h ∈ property_history st' ↔
           h ∈ property_history st ∧ History.property_id h ≠ p)
   ∧ (reachable st →
      ∀ r req, requests st !! r = Some req → Request.property_id req = p →
               Request.status req = pending →
               ¬ holds_pending st' (Request.buyer_id req)))
  ∧ (∀ uid, uid ≠ Property.seller_id old → exec (DeleteProperty uid p) st = st).
Proof.
  intros Ho. split.
  - cbv beta iota delta [exec]. unfold rpc, client_delete_property. simpl.
    rewrite Ho. unfold RLS.properties_delete_using.
    rewrite bool_decide_eq_true_2 by done. simpl.
    split; [done|]. split; [|split].
    + intros r req. by rewrite map_lookup_filter_Some.
    + intros h. by rewrite list_elem_of_filter, (comm and).
    + intros Hreach r req Hr Hp Hs (k & req' & Hk & Hb & Hs').
      apply map_lookup_filter_Some in Hk as [Hk Hf]. simpl in Hf.
      assert (k = r) as ->.
      { apply reachable_pending_inj in Hreach.
        by eapply (Hreach (Request.buyer_id req) k r req' req). }
      rewrite Hr in Hk. injection Hk as <-. done.
  - intros uid Hne. cbv beta iota delta [exec].
    unfold rpc, client_delete_property. simpl. rewrite Ho.
    unfold RLS.properties_delete_using.
    by rewrite bool_decide_eq_false_2.
Qed.

Lemma delete_property_cascades_witness :
  exec (DeleteProperty 2 10) pending_store = pending_store.
Proof.
  refine (proj2 (delete_property_cascades pending_store 10
                   (Property.mk 1 requested) _) 2 _).
  - reflexivity.
  - simpl. lia.
Defined.

(** ** A reservation without a request *)

Lemma exec_orphan a st p prop :
  is_engine a = true →
  properties st !! p = Some prop →
  Property.status prop = requested →
  (∀ r req, requests st !! r = Some req → Request.status req = pending →
            Request.property_id req ≠ p) →
  properties (exec a st) !! p = Some prop
  ∧ (∀ r req, requests (exec a st) !! r = Some req → Request.status req = pending →
              Request.property_id req ≠ p).
Proof.
  intros Ha HP Hreq Hnone.
  destruct (exec_shape st a) as
    [E|[(b & p0 & m & pr & _ & HP0 & Hav & _ & _ & E)
       |[(r0 & rq0 & v & ps & Hvs & Hr0 & Hs0 & E)
        |[(row & -> & _)
         |[(p0 & o & u & -> & _ & _)
          |[(p0 & o & -> & _ & _)
           |(uid & r0 & o & v & -> & _ & _ & _)]]]]]]; try discriminate.
  - by rewrite E.
  - assert (p0 ≠ p) as Hne.
    { intros ->. rewrite HP0 in HP. injection HP as ->. congruence. }
    rewrite E. simpl. split; [by rewrite lookup_insert_ne|].
    intros r req Hr Hs. rewrite lookup_insert in Hr. case_decide.
    + injection Hr as <-. done.
    + by eapply Hnone.
  - rewrite E. simpl. split.
    + rewrite lookup_alter_ne; [done|]. by eapply Hnone.
    + intros r req Hr Hs. rewrite lookup_insert in Hr. case_decide.
      * injection Hr as <-. simpl in Hs.
        destruct Hvs as [(_ & -> & _)|(_ & [[-> _]|[-> _]])]; done.
      * by eapply Hnone.
Qed.

(** X21. A property that is marked requested while no pending request
    refers to it (as after the buyer or the seller closed the request with
    a direct UPDATE, which leaves the property alone) cannot be released by
    the three functions: whatever calls are made and in whatever order, the
    property row stays as it is. *)
Theorem orphaned_reservation_is_stuck (acts : list action) (st : store) (p : nat)
    (prop : Property.t) :
  properties st !! p = Some prop →
  Property.status prop = requested →
  (∀ r req, requests st !! r = Some req → Request.status req = pending →
            Request.property_id req ≠ p) →
  forallb is_engine acts = true →
  properties (run acts st) !! p = Some prop.
Proof.
  revert st. induction acts as [|a acts IH]; intros st HP Hreq Hnone Hall; [done|].
  simpl in Hall. apply andb_true_iff in Hall as [Ha Hall].
  destruct (exec_orphan a st p prop Ha HP Hreq Hnone) as [HP' Hnone'].
  simpl. by apply IH.
Qed.

Lemma orphaned_reservation_is_stuck_witness :
  properties (run [CancelRequest 0 2; CreateRequest 3 0 None;
                   RespondToRequest 0 1 declined]
                (exec (UpdateRequestStatus 2 0 cancelled) requested_store)) !! 0
  = Some (Property.mk 1 requested).
Proof.
  refine (orphaned_reservation_is_stuck
            [CancelRequest 0 2; CreateRequest 3 0 None; RespondToRequest 0 1 declined]
            (exec (UpdateRequestStatus 2 0 cancelled) requested_store) 0
            (Property.mk 1 requested) _ _ _ _).
  - reflexivity.
  - reflexivity.
  - intros r req Hr Hs.
    assert (requests (exec (UpdateRequestStatus 2 0 cancelled) requested_store)
            = {[ 0 := Request.mk 2 0 1 None cancelled ]}) as E by reflexivity.
    rewrite E in Hr. apply lookup_singleton_Some in Hr as [_ <-]. discriminate.
  - reflexivity.
Defined.

(** ** The image list *)

Section images.
Import Images.
Implicit Types (images : list ImageItem) (updated : list (option ImageItem)).



Lemma renumber_uri updated : uri <$> renumber updated = (λ o, o ≫= uri) <$> updated.
Proof.
  unfold renumber. apply list_eq. intros i.
  rewrite !list_lookup_fmap, list_lookup_imap.
  by destruct (updated !! i).
Qed.

Lemma renumber_length updated : length (renumber updated) = length updated.
Proof. apply length_imap. Qed.

Lemma renumber_id images : sequential images → renumber (Some <$> images) = images.
Proof.
  unfold sequential, renumber. intros Hseq. apply list_eq. intros i.
  rewrite list_lookup_imap, list_lookup_fmap.
  destruct (images !! i) as [img|] eqn:Hi; simpl; [|done].
  assert ((order <$> images) !! i = Some (order img)) as Ho
    by (by rewrite list_lookup_fmap, Hi).
  rewrite Hseq in Ho. apply lookup_seq in Ho as [Ho _].
  destruct img as [u o]. simpl in *. by subst.
Qed.

Lemma filter_index_delete {A} (l : list A) index k :
  (λ ix : nat * A, ix.2)
    <$> filter (λ ix, negb (bool_decide (ix.1 = k + index)) = true)
          (imap (λ i x, (k + i, x)) l)
  = delete index l.
Proof.
  revert index k. induction l as [|x l IH]; intros index k; [done|].
  rewrite imap_cons. simpl.
  assert (imap ((λ i x, (k + i, x)) ∘ S) l = imap (λ i x, (S k + i, x)) l) as ->.
  { apply imap_ext. intros i y _. simpl. f_equal. lia. }
  destruct index as [|index].
  - rewrite filter_cons_False.
    2: { simpl. rewrite bool_decide_eq_true_2 by lia. done. }
    simpl. clear IH. induction l as [|y l IHl] using rev_ind; [done|].
    rewrite imap_app, filter_app, fmap_app. simpl.
    rewrite IHl. f_equal. rewrite filter_cons_True; [done|].
    simpl. rewrite bool_decide_eq_false_2 by lia. done.
  - rewrite filter_cons_True.
    2: { simpl. rewrite bool_decide_eq_false_2 by lia. done. }
    simpl. f_equal. replace (k + S index) with (S k + index) by lia. apply IH.
Qed.

Lemma filter_index_remove images index :
  filter_index (λ i, negb (bool_decide (i = index))) images = delete index images.
Proof. apply (filter_index_delete images index 0). Qed.

Lemma swap_adjacent_perm {A} (l : list A) i a b :
  l !! i = Some a → l !! S i = Some b → <[S i := a]> (<[i := b]> l) ≡ₚ l.
Proof.
  revert i. induction l as [|x l IH]; intros [|i] Hi Hj; simplify_eq/=.
  - destruct l as [|y l]; simplify_eq/=. apply perm_swap.
  - constructor. by apply IH.
Qed.

(** The list after a reorder that passes the guard, both indexes being
    indexes of the list. *)
Lemma reorder_in_range images from to xf xt :
  images !! from = Some xf → images !! to = Some xt →
  renumber (array_set to (mjoin ((Some <$> images) !! from))
              (array_set from (mjoin ((Some <$> images) !! to)) (Some <$> images)))
  = renumber (Some <$> <[to := xf]> (<[from := xt]> images)).
Proof.
  intros Hf Ht. rewrite !list_lookup_fmap, Hf, Ht. simpl.
  unfold array_set.
  assert (from < length images) as Hlf by (by eapply lookup_lt_Some).
  assert (to < length images) as Hlt by (by eapply lookup_lt_Some).
  rewrite (bool_decide_eq_true_2 (from < length (Some <$> images)))
    by (by rewrite length_fmap).
  rewrite bool_decide_eq_true_2
    by (by rewrite length_insert, length_fmap).
  by rewrite !list_fmap_insert.
Qed.

Lemma reorder_neighbour images prev from d to xf xt :
  neighbour from d to →
  to < length images →
  prev !! from = Some xf → prev !! to = Some xt →
  handleReorderImage from d images prev
  = renumber (Some <$> <[to := xf]> (<[from := xt]> prev)).
Proof.
  intros Hn Hlt Hf Ht. unfold handleReorderImage.
  destruct d; simpl in Hn; subst.
  - rewrite bool_decide_eq_false_2 by lia. by apply reorder_in_range.
  - replace (from + 1) with (S from) by lia.
    rewrite bool_decide_eq_false_2 by lia. by apply reorder_in_range.
Qed.

Lemma reorder_neighbour_uris images prev from d to xf xt :
  neighbour from d to →
  to < length images →
  prev !! from = Some xf → prev !! to = Some xt →
  uri <$> handleReorderImage from d images prev
  = <[to := uri xf]> (<[from := uri xt]> (uri <$> prev)).
Proof.
  intros Hn Hlt Hf Ht. rewrite (reorder_neighbour _ _ _ _ _ _ _ Hn Hlt Hf Ht).
  rewrite renumber_uri, <- list_fmap_compose, !list_fmap_insert.
  done.
Qed.


Lemma neighbour_ne from d to : neighbour from d to → from ≠ to.
Proof. destruct d; simpl; lia. Qed.

Lemma neighbour_opposite from d to : neighbour from d to → neighbour to (opposite d) from.
Proof. by destruct d. Qed.
End images.



(** X23. [handleReorderImage], called where the rendered list is as long as
    the current one, on an image of the list that has a neighbour in the
    given direction, exchanges the two and changes nothing else: the list
    keeps its length and its images (the uris are a permutation of the old
    ones), the two uris trade places, every other position keeps its uri,
    and moving the image back in the opposite direction restores the
    uris. *)
Theorem reorder_swaps_neighbours (images prev : list Images.ImageItem)
    (from to : nat) (d : Images.direction) :
  Images.neighbour from d to →
  length images = length prev →
  from < length prev → to < length prev →
  let res := Images.handleReorderImage from d images prev in
  length res = length prev
  ∧ Images.uri <$> res ≡ₚ Images.uri <$> prev
  ∧ (Images.uri <$> res) !! to = (Images.uri <$> prev) !! from
  ∧ (Images.uri <$> res) !! from = (Images.uri <$> prev) !! to
  ∧ (∀ i, i ≠ from → i ≠ to →
          (Images.uri <$> res) !! i = (Images.uri <$> prev) !! i)
  ∧ Images.uri <$> Images.handleReorderImage to (Images.opposite d) res res
    = Images.uri <$> prev.
Proof.
  intros Hn Hlen' Hlf Hlt.
  assert (to < length images) as Hgt by lia.
  destruct (lookup_lt_is_Some_2 prev from Hlf) as [xf Hf].
  destruct (lookup_lt_is_Some_2 prev to Hlt) as [xt Ht].
  pose proof (neighbour_ne _ _ _ Hn) as Hne.
  pose proof (reorder_neighbour_uris _ _ _ _ _ _ _ Hn Hgt Hf Ht) as Huris.
  assert (length (Images.handleReorderImage from d images prev) = length prev)
    as Hlen.
  { rewrite (reorder_neighbour _ _ _ _ _ _ _ Hn Hgt Hf Ht).
    by rewrite renumber_length, length_fmap, !length_insert. }
  assert ((Images.uri <$> prev) !! from = Some (Images.uri xf)) as Huf
    by (by rewrite list_lookup_fmap, Hf).
  assert ((Images.uri <$> prev) !! to = Some (Images.uri xt)) as Hut
    by (by rewrite list_lookup_fmap, Ht).
  assert ((Images.uri <$> Images.handleReorderImage from d images prev) !! to
          = Some (Images.uri xf)) as Hrt.
  { rewrite Huris. apply list_lookup_insert_eq.
    by rewrite length_insert, length_fmap. }
  assert ((Images.uri <$> Images.handleReorderImage from d images prev) !! from
          = Some (Images.uri xt)) as Hrf.
  { rewrite Huris. rewrite list_lookup_insert_ne by done.
    apply list_lookup_insert_eq. by rewrite length_fmap. }
  simpl. split; [done|]. split; [|split; [|split; [|split]]].
  - rewrite Huris. destruct d; simpl in Hn; subst.
    + rewrite list_insert_insert_ne by lia. by apply swap_adjacent_perm.
    + by apply swap_adjacent_perm.
  - by rewrite Hrt, Huf.
  - by rewrite Hrf, Hut.
  - intros i Hif Hit. rewrite Huris. by rewrite !list_lookup_insert_ne.
  - apply list_lookup_fmap_Some_1 in Hrt as (yt & Hyt & Hrt').
    apply list_lookup_fmap_Some_1 in Hrf as (yf & Hyf & Hrf').
    rewrite (reorder_neighbour_uris _ _ _ _ _ yt yf (neighbour_opposite _ _ _ Hn));
      [|lia|done..].
    rewrite Huris, <- Hyt, <- Hyf. apply list_eq. intros i.
    destruct (decide (i = from)) as [->|Hif].
    { rewrite list_lookup_insert_eq by (by rewrite !length_insert, length_fmap).
      done. }
    rewrite list_lookup_insert_ne by done.
    destruct (decide (i = to)) as [->|Hit].
    { rewrite list_lookup_insert_eq by (by rewrite !length_insert, length_fmap).
      done. }
    by rewrite !list_lookup_insert_ne.
Qed.

Lemma reorder_swaps_neighbours_witness :
  let res := Images.handleReorderImage 1 Images.down three_images three_images in
  length res = length three_images
  ∧ Images.uri <$> res ≡ₚ Images.uri <$> three_images
  ∧ (Images.uri <$> res) !! 2 = (Images.uri <$> three_images) !! 1
  ∧ (Images.uri <$> res) !! 1 = (Images.uri <$> three_images) !! 2
  ∧ (∀ i, i ≠ 1 → i ≠ 2 →
          (Images.uri <$> res) !! i = (Images.uri <$> three_images) !! i)
  ∧ Images.uri <$> Images.handleReorderImage 2 (Images.opposite Images.down) res res
    = Images.uri <$> three_images.
Proof.
  refine (reorder_swaps_neighbours three_images three_images 1 2 Images.down _ _ _ _).
  - reflexivity.
  - reflexivity.
  - simpl. lia.
  - simpl. lia.
Defined.

(** X24. [handleRemoveImage] takes out the image at the index and nothing
    else: the uris left are the old ones without that position, in the same
    order, and the list is one shorter; with an index past the end no image
    is removed. *)
Theorem remove_image_spec (prev : list Images.ImageItem) (index : nat) :
  Images.uri <$> Images.handleRemoveImage index prev
  = delete index (Images.uri <$> prev)
  ∧ (index < length prev →
     length (Images.handleRemoveImage index prev) = length prev - 1)
  ∧ (length prev ≤ index →
     Images.uri <$> Images.handleRemoveImage index prev = Images.uri <$> prev).
Proof.
  assert (Images.uri <$> Images.handleRemoveImage index prev
          = delete index (Images.uri <$> prev)) as Huris.
  { unfold Images.handleRemoveImage.
    rewrite renumber_uri, <- list_fmap_compose, filter_index_remove.
    by rewrite <- list_fmap_delete. }
  split; [done|]. split.
  - intros Hlt. unfold Images.handleRemoveImage.
    rewrite renumber_length, length_fmap, filter_index_remove, length_delete.
    + done.
    + by apply lookup_lt_is_Some_2.
  - intros Hge. rewrite Huris. rewrite delete_take_drop.
    rewrite take_ge, drop_ge by (rewrite length_fmap; lia).
    by rewrite app_nil_r.
Qed.

Lemma remove_image_spec_witness :
  length (Images.handleRemoveImage 1 three_images) = length three_images - 1.
Proof.
  refine (proj1 (proj2 (remove_image_spec three_images 1)) _).
  simpl. lia.
Defined.

(** X25. The guard of [handleReorderImage] looks at the target index only,
    and compares it with the length of the rendered list.  At the ends of
    that list nothing moves (up from the first image, down from the last or
    from any index past it, up from an index more than one past the end).
    But up from the index just past the end of a non-empty list passes the
    guard: the list grows by one, the position of the last image is taken by
    an item without uri, and the last image moves to the new end. *)
Theorem reorder_guard_edges (images prev : list Images.ImageItem) :
  Images.handleReorderImage 0 Images.up images prev = prev
  ∧ (∀ from, length images ≤ from + 1 →
             Images.handleReorderImage from Images.down images prev = prev)
  ∧ (∀ from, length images < from →
             Images.handleReorderImage from Images.up images prev = prev)
  ∧ (∀ last, length images = length prev →
       prev !! (length prev - 1) = Some last →
       let res := Images.handleReorderImage (length prev) Images.up images prev in
       length res = S (length prev)
       ∧ Images.uri <$> res !! (length prev - 1) = Some None
       ∧ Images.uri <$> res !! length prev = Some (Images.uri last)).
Proof.
  split; [done|]. split; [|split].
  - intros from Hge. unfold Images.handleReorderImage. simpl.
    by rewrite bool_decide_eq_true_2 by lia.
  - intros from Hlt. unfold Images.handleReorderImage.
    destruct from as [|t]; [done|]. simpl.
    by rewrite bool_decide_eq_true_2 by lia.
  - intros last Hrendered Hlast.
    assert (0 < length prev) as Hpos.
    { apply lookup_lt_Some in Hlast. lia. }
    destruct (length prev) as [|n] eqn:Hlen; [lia|].
    replace (S n - 1) with n in * by lia.
    assert (Images.handleReorderImage (S n) Images.up images prev
            = Images.renumber (<[n := None]> ((Some <$> prev) ++ [Some last])))
      as E.
    { unfold Images.handleReorderImage.
      rewrite Hrendered. rewrite bool_decide_eq_false_2 by lia.
      rewrite !list_lookup_fmap, Hlast.
      rewrite (lookup_ge_None_2 prev (S n)) by lia. simpl.
      unfold Images.array_set at 2.
      rewrite bool_decide_eq_false_2 by (rewrite length_fmap; lia).
      rewrite length_fmap, Hlen. replace (S n - S n) with 0 by lia. simpl.
      unfold Images.array_set.
      by rewrite bool_decide_eq_true_2
        by (rewrite length_app, length_fmap; simpl; lia). }
    cbv zeta. rewrite E. split; [|split].
    + rewrite renumber_length, length_insert, length_app, length_fmap. simpl. lia.
    + unfold Images.renumber. rewrite list_lookup_imap.
      rewrite list_lookup_insert_eq
        by (rewrite length_app, length_fmap; simpl; lia).
      done.
    + unfold Images.renumber. rewrite list_lookup_imap.
      rewrite list_lookup_insert_ne by lia.
      rewrite lookup_app_r by (rewrite length_fmap; lia).
      rewrite length_fmap, Hlen. replace (S n - S n) with 0 by lia. done.
Qed.

Lemma reorder_guard_edges_witness :
  let res := Images.handleReorderImage (length three_images) Images.up
               three_images three_images in
  length res = S (length three_images)
  ∧ Images.uri <$> res !! (length three_images - 1) = Some None
  ∧ Images.uri <$> res !! length three_images = Some (Some "c").
Proof.
  refine (proj2 (proj2 (proj2 (reorder_guard_edges three_images three_images)))
            (Images.mkItem (Some "c") 2) _ _).
  - reflexivity.
  - reflexivity.
Defined.

Lemma push_retries_bounded_witness :
  ∃ t n,
    Push.sendExpoPushNotification example_net = Some t
    ∧ 1 ≤ n ≤ 3
    ∧ Push.attempts t = seq 1 n
    ∧ Push.sleeps t = (λ k, 1000 * k) <$> seq 1 (n - 1)
    ∧ sum_list (Push.sleeps t) ≤ 3000
    ∧ (∀ k, 1 ≤ k < n → Push.retryable (example_net k) = true)
    ∧ (n < 3 → Push.retryable (example_net n) = false)
    ∧ Push.success (Push.result t) = Push.delivered (example_net n).
Proof. exact (push_retries_bounded example_net). Defined.

Lemma isValidExpoPushToken_spec_witness :
  Push.isValidExpoPushToken (Push.js "ExponentPushToken[" ++ Push.js "xY-9" ++ Push.js "]")
  = true.
Proof.
  refine (proj2 (isValidExpoPushToken_spec _) _).
  exists (Push.js "xY-9"). split; [discriminate|]. split; [|by right].
  repeat constructor; vm_compute; intros H; repeat (inversion H as [|? ? ? H']; clear H; rename H' into H).
Defined.
